(** * Auto-STL-Render: view selection and camera framing of [ModelRenderer]

    A shallow embedding of [src/model_renderer.py]: the candidate scorer
    [find_best_front_views] and the camera set-up of [render_view].

    The renderer computes in binary64 (numpy [float64] and Python [float]).
    The embedding is written once over an arithmetic interface [Arith] and
    read at two instances: [float_arith], the machine arithmetic, in which the
    code is run on concrete meshes, and [R_arith], exact real arithmetic, in
    which the geometric statements (unit vectors, clipping range) are made.
    What the code leaves to its libraries is taken as given: the products of
    numpy ([dot3], [row_dot3]), the lower-casing of Python ([str_lower]), the
    fit of sklearn and the visible bounds of the renderer. *)

From Stdlib Require Import ZArith List String Ascii Bool Lia.
From Stdlib Require Import Reals Lra.
From Stdlib Require Import Sorted Permutation.
From Stdlib Require Import DecimalString DecimalNat.
From Stdlib Require PrimFloat Uint63 Floats.
Import ListNotations.

Set Implicit Arguments.

(** ** Arithmetic interface *)

Declare Scope arith_scope.
Delimit Scope arith_scope with A.

Class Arith (F : Type) : Type := {
  of_int : Z -> F;           (* an [int] used where a float is expected *)
  add : F -> F -> F;
  sub : F -> F -> F;
  mul : F -> F -> F;
  div : F -> F -> F;           (* numpy division: never raises *)
  neg : F -> F;
  fabs : F -> F;
  fsqrt : F -> F;
  lt : F -> F -> bool;         (* [x < y] *)
  feq : F -> F -> bool;        (* [x == y] *)
  pow2 : F -> F;               (* the value of [x ** 2] on a Python float *)
  is_inf : F -> bool;          (* whether a value is [inf] or [-inf] *)
  (* [np.dot] of two vectors of length 3, and one entry of [np.dot] of an
     array of rows of length 3 with such a vector.  numpy leaves the order of
     the sum, and whether products are fused into it, to its BLAS library. *)
  dot3 : F * F * F -> F * F * F -> F;
  row_dot3 : F * F * F -> F * F * F -> F
}.

Notation "x + y" := (add x y) : arith_scope.
Notation "x - y" := (sub x y) : arith_scope.
Notation "x * y" := (mul x y) : arith_scope.
Notation "x / y" := (div x y) : arith_scope.
Notation "- x" := (neg x) : arith_scope.
Notation "x <? y" := (lt x y) (at level 70, no associativity) : arith_scope.
Notation "x >? y" := (lt y x) (at level 70, no associativity) : arith_scope.

(** Binary64.  [of_int] is exact on the integers the code converts (small
    literals and array lengths). *)
Definition float_of_Z (z : Z) : PrimFloat.float :=
  match z with
  | Z0 => PrimFloat.zero
  | Zpos _ => PrimFloat.of_uint63 (Uint63.of_Z z)
  | Zneg p => PrimFloat.opp (PrimFloat.of_uint63 (Uint63.of_Z (Zpos p)))
  end.

(** The square is the correctly rounded one.  The two products are summed
    in index order and unfused: one of the roundings a BLAS library may
    produce.  On vectors of small integers and their halves, as in the
    examples below, every order gives the same value. *)
#[export] Instance float_arith : Arith PrimFloat.float := {
  of_int := float_of_Z;
  add := PrimFloat.add;
  sub := PrimFloat.sub;
  mul := PrimFloat.mul;
  div := PrimFloat.div;
  neg := PrimFloat.opp;
  fabs := PrimFloat.abs;
  fsqrt := PrimFloat.sqrt;
  lt := PrimFloat.ltb;
  feq := PrimFloat.eqb;
  pow2 := fun x => PrimFloat.mul x x;
  is_inf := PrimFloat.is_infinity;
  dot3 := fun a b =>
    let '(a0, a1, a2) := a in
    let '(b0, b1, b2) := b in
    PrimFloat.add (PrimFloat.add (PrimFloat.mul a0 b0) (PrimFloat.mul a1 b1))
                  (PrimFloat.mul a2 b2);
  row_dot3 := fun a b =>
    let '(a0, a1, a2) := a in
    let '(b0, b1, b2) := b in
    PrimFloat.add (PrimFloat.add (PrimFloat.mul a0 b0) (PrimFloat.mul a1 b1))
                  (PrimFloat.mul a2 b2)
}.

(** Exact reals.  Division by zero, which numpy answers with [inf] or [nan],
    has no counterpart here; the statements made over [R] keep away from it.
    No real is infinite, so nothing overflows. *)
Definition Rltb (x y : R) : bool := if Rlt_dec x y then true else false.
Definition Reqb (x y : R) : bool := if Req_dec_T x y then true else false.

#[export] Instance R_arith : Arith R := {
  of_int := IZR;
  add := Rplus;
  sub := Rminus;
  mul := Rmult;
  div := Rdiv;
  neg := Ropp;
  fabs := Rabs;
  fsqrt := sqrt;
  lt := Rltb;
  feq := Reqb;
  pow2 := fun x => Rmult x x;
  is_inf := fun _ => false;
  dot3 := fun a b =>
    let '(a0, a1, a2) := a in
    let '(b0, b1, b2) := b in
    Rplus (Rplus (Rmult a0 b0) (Rmult a1 b1)) (Rmult a2 b2);
  row_dot3 := fun a b =>
    let '(a0, a1, a2) := a in
    let '(b0, b1, b2) := b in
    Rplus (Rplus (Rmult a0 b0) (Rmult a1 b1)) (Rmult a2 b2)
}.

(** ** Exceptions *)

Inductive exn : Type :=
| ValueError (msg : string)
| ZeroDivisionError
| OverflowError
| Raised (what : string).      (* any other exception of sklearn or pyvista *)

Inductive result (A : Type) : Type :=
| Ok (a : A)
| Raise (e : exn).
Arguments Ok {A} a.
Arguments Raise {A} e.

Definition bind {A B : Type} (r : result A) (k : A -> result B) : result B :=
  match r with
  | Ok a => k a
  | Raise e => Raise e
  end.

Notation "x <- r ;; k" := (bind r (fun x => k))
  (at level 61, r at next level, right associativity).

Definition is_ValueError {A : Type} (r : result A) : bool :=
  match r with
  | Raise (ValueError _) => true
  | _ => false
  end.

Definition is_Ok {A : Type} (r : result A) : bool :=
  match r with
  | Ok _ => true
  | Raise _ => false
  end.

(** ** Strings

    A Python [str] is held as the bytes of its UTF-8 form, which keeps
    equality, emptiness and concatenation as they are.  [str.lower] works on
    all of Unicode and is Python's own; the embedding takes it as given. *)

Class StrLower : Type := str_lower : string -> string.

(** What [str.lower] does on text of ASCII characters only: A-Z are moved to
    a-z and nothing else changes.  The examples are run with it. *)

Definition lower_ascii (c : ascii) : ascii :=
  let n := nat_of_ascii c in
  if (65 <=? n)%nat && (n <=? 90)%nat then ascii_of_nat (n + 32) else c.

Fixpoint lower (s : string) : string :=
  match s with
  | EmptyString => EmptyString
  | String c s' => String (lower_ascii c) (lower s')
  end.

Definition is_ascii_text (s : string) : bool :=
  forallb (fun c => (nat_of_ascii c <? 128)%nat) (list_ascii_of_string s).

(** Truth value of an optional string argument: [None] and [''] are false. *)
Definition truthy (preset : option string) : option string :=
  match preset with
  | Some EmptyString => None
  | other => other
  end.

Section Renderer.

Context {F : Type} {AF : Arith F} {SL : StrLower}.
Local Open Scope arith_scope.

(** A decimal literal [n/d], e.g. [dec 9 10] for [0.9]: with both parts exact,
    the rounded quotient is the binary64 value the literal denotes. *)
Definition dec (n d : Z) : F := of_int n / of_int d.

(** Python's builtin [max] and [min] on two arguments keep the first one
    unless the second compares strictly beyond it. *)
Definition py_max (a b : F) : F := if a <? b then b else a.
Definition py_min (a b : F) : F := if b <? a then b else a.

(** Division of Python floats. *)
Definition py_div (a b : F) : result F :=
  if feq b (of_int 0) then Raise ZeroDivisionError else Ok (a / b).

(** [x ** 2] on a Python float: a finite [x] whose square is out of range
    raises, where numpy would answer [inf]. *)
Definition py_pow2 (x : F) : result F :=
  if (negb (is_inf x) && is_inf (pow2 x))%bool then Raise OverflowError
  else Ok (pow2 x).

(** *** 3-vectors *)

Definition vec : Type := (F * F * F)%type.

Definition ivec (x y z : Z) : vec := (of_int x, of_int y, of_int z).

(** [np.dot] on two 3-vectors. *)
Definition dot (a b : vec) : F := dot3 a b.

(** [np.dot(rows, v)] on an array of 3-vectors and a 3-vector. *)
Definition dot_rows (rows : list vec) (v : vec) : list F :=
  map (fun row => row_dot3 row v) rows.

(** [np.linalg.norm]: the root of the vector's product with itself. *)
Definition norm (v : vec) : F := fsqrt (dot v v).

Definition vscale (v : vec) (c : F) : vec :=
  let '(x, y, z) := v in (x * c, y * c, z * c).

Definition vdiv (v : vec) (c : F) : vec :=
  let '(x, y, z) := v in (x / c, y / c, z / c).

Definition vneg (v : vec) : vec :=
  let '(x, y, z) := v in (- x, - y, - z).

Definition vsub (a b : vec) : vec :=
  let '(a0, a1, a2) := a in
  let '(b0, b1, b2) := b in
  (a0 - b0, a1 - b1, a2 - b2).

Definition normalize (v : vec) : vec := vdiv v (norm v).

(** *** The mesh, as [pyvista] presents it *)

Record Mesh : Type := {
  points : list vec;
  n_cells : Z;
  cell_data_Normals : option (list vec);   (* [cell_data['Normals']], if present *)
  face_normals : result (list vec);        (* the property may raise *)
  bounds : F * F * F * F * F * F           (* xmin, xmax, ymin, ymax, zmin, zmax *)
}.

Definition x_size (m : Mesh) : F :=
  let '(x0, x1, _, _, _, _) := bounds m in x1 - x0.
Definition y_size (m : Mesh) : F :=
  let '(_, _, y0, y1, _, _) := bounds m in y1 - y0.
Definition z_size (m : Mesh) : F :=
  let '(_, _, _, _, z0, z1) := bounds m in z1 - z0.

(** [max(a, b, c)] *)
Definition py_max3 (a b c : F) : F := py_max (py_max a b) c.

(** [self.max_dimension], set in [__init__]. *)
Definition max_dimension (m : Mesh) : F :=
  py_max3 (x_size m) (y_size m) (z_size m).

(** [PCA(n_components=3).fit(points).components_]: three rows, or the
    exception the fit raised. *)
Variable PCA_fit : list vec -> result (vec * vec * vec).

(** ** [find_best_front_views] *)

Definition priority_views : list (vec * string) :=
  [ (ivec 0 0 1, "top"%string); (ivec 0 (-1) 0, "front"%string) ].

Definition standard_views : list (vec * string) :=
  [ (ivec 1 0 0, "right"%string); (ivec (-1) 0 0, "left"%string);
    (ivec 0 1 0, "back"%string);
    (ivec 0 0 (-1), "bottom"%string);
    (ivec 1 1 0, "diag_1"%string); (ivec 1 0 1, "diag_2"%string) ].

Definition Candidate : Type := (vec * string * bool)%type.

Definition pca_name (i : nat) (suffix : string) : string :=
  ("pca_" ++ NilZero.string_of_uint (Nat.to_uint i) ++ suffix)%string.

Fixpoint pca_candidates (i : nat) (components : list vec) : list Candidate :=
  match components with
  | [] => []
  | component :: rest =>
      (component, pca_name i "_pos", false)
      :: (vneg component, pca_name i "_neg", false)
      :: pca_candidates (S i) rest
  end.

Definition all_candidates (components : list vec) : list Candidate :=
  map (fun '(view_dir, name) => (view_dir, name, true)) priority_views
  ++ pca_candidates 0 components
  ++ map (fun '(view_dir, name) => (vdiv view_dir (norm view_dir), name, false))
         standard_views.

(** [max([abs(np.dot(view_dir, comp)) for comp in pca.components_])] *)
Definition pca_score (components : list vec) (view_dir : vec) : F :=
  match map (fun comp => fabs (dot view_dir comp)) components with
  | [] => of_int 0            (* not reached: there are three components *)
  | s :: rest => fold_left py_max rest s
  end.

Definition count_positive (dot_products : list F) : Z :=
  Z.of_nat (List.length (filter (fun p => p >? of_int 0) dot_products)).

(** Lines 103-107: the stored normals if there are any, else the computed
    ones. *)
Definition mesh_normals (m : Mesh) : result (list vec) :=
  match cell_data_Normals m with
  | Some ns => Ok ns
  | None => face_normals m
  end.

(** The [try] block of the scoring loop: any exception gives [0.6]. *)
Definition visibility_score (m : Mesh) (view_dir : vec) : F :=
  if ((0 <? n_cells m)%Z && (n_cells m <? 100000)%Z)%bool then
    match mesh_normals m with
    | Ok face_normals =>
        let dot_products := dot_rows face_normals view_dir in
        of_int (count_positive dot_products)
        / of_int (Z.of_nat (List.length face_normals))
    | Raise _ => dec 6 10
    end
  else dec 6 10.

Definition ScoredView : Type := (vec * F * string)%type.

Definition score_of (v : ScoredView) : F := snd (fst v).
Definition dir_of (v : ScoredView) : vec := fst (fst v).

Definition base_score (m : Mesh) (components : list vec) (view_dir : vec) : F :=
  pca_score components view_dir * dec 2 1 + visibility_score m view_dir * dec 3 1.

Definition score_view (m : Mesh) (components : list vec) (c : Candidate)
  : ScoredView :=
  let '(view_dir, name, is_priority) := c in
  let view_dir := vdiv view_dir (norm view_dir) in
  let base := base_score m components view_dir in
  let final_score := if is_priority then base + dec 1 1 else base in
  (view_dir, final_score, name).

(** [list.sort(key=..., reverse=True)]: descending, and stable, so that
    entries with equal keys keep their order.  On keys that are totally
    ordered every stable sort returns this list; scores that are NaN are not
    accounted for. *)
Fixpoint insert_desc (v : ScoredView) (l : list ScoredView) : list ScoredView :=
  match l with
  | [] => [v]
  | w :: l' =>
      if score_of v <? score_of w then w :: insert_desc v l' else v :: l
  end.

Definition sort_desc (l : list ScoredView) : list ScoredView :=
  fold_right insert_desc [] l.

Definition is_unique (view_dir : vec) (unique_views : list ScoredView) : bool :=
  forallb (fun existing => negb (dot view_dir (dir_of existing) >? dec 9 10))
          unique_views.

(** The selection loop: the length test comes after the append. *)
Fixpoint select_views (n_views : Z) (unique_views scored_views : list ScoredView)
  : list ScoredView :=
  match scored_views with
  | [] => unique_views
  | v :: rest =>
      let unique_views :=
        if is_unique (dir_of v) unique_views then unique_views ++ [v]
        else unique_views in
      if (Z.of_nat (List.length unique_views) >=? n_views)%Z then unique_views
      else select_views n_views unique_views rest
  end.

Definition components_ (fit : vec * vec * vec) : list vec :=
  let '(c0, c1, c2) := fit in [c0; c1; c2].

Definition scored_views (m : Mesh) (fit : vec * vec * vec) : list ScoredView :=
  map (score_view m (components_ fit)) (all_candidates (components_ fit)).

Definition find_best_front_views (m : Mesh) (n_views : Z)
  : result (list (vec * F)) :=
  fit <- PCA_fit (points m) ;;
  let unique_views := select_views n_views [] (sort_desc (scored_views m fit)) in
  Ok (map (fun v => (dir_of v, score_of v)) unique_views).

(** ** [get_preset_view] and [render_view] *)

Definition preset_names : list string :=
  [ "front"%string; "back"%string; "top"%string; "bottom"%string;
    "left"%string; "right"%string ].

(** [presets.get(preset_name.lower())]: position and up vector, or [None]. *)
Definition get_preset_view (m : Mesh) (preset_name : string)
  : option (vec * vec) :=
  let camera_distance := max_dimension m * dec 4 1 in
  let presets : list (string * (vec * vec)) :=
    [ ("front"%string,  ((of_int 0, - camera_distance, of_int 0), ivec 0 0 1));
      ("back"%string,   ((of_int 0, camera_distance, of_int 0), ivec 0 0 1));
      ("top"%string,    ((of_int 0, of_int 0, camera_distance), ivec 0 1 0));
      ("bottom"%string, ((of_int 0, of_int 0, - camera_distance), ivec 0 1 0));
      ("left"%string,   ((- camera_distance, of_int 0, of_int 0), ivec 0 0 1));
      ("right"%string,  ((camera_distance, of_int 0, of_int 0), ivec 0 0 1)) ] in
  option_map snd
    (find (fun entry => String.eqb (fst entry) (str_lower preset_name)) presets).

Definition unknown_preset (preset : string) : exn :=
  ValueError ("Unknown preset '" ++ preset
              ++ "'. Available: front, back, top, bottom, left, right")%string.

Definition must_specify : exn :=
  ValueError "Must specify either view_direction or preset".

(** The values [render_view] assigns to [plotter.camera] at lines 297-306,
    and the factor it passes to [camera.zoom] at line 324 ([None] when
    [camera.zoom] is not called).  Between the two, [plotter.reset_camera()]
    (line 309) moves the camera to fit the scene; what pyvista makes of the
    assigned values there, and so the camera of the picture itself, is not
    represented. *)
Record Camera : Type := {
  position : vec;
  focal_point : vec;
  up : vec;
  view_angle : F;
  clipping_range : F * F;
  zoom : option F
}.

(** Lines 194-215: the first choice of position and up vector, which only
    serves to reject bad arguments, as both values are assigned again below;
    and [view_direction] as it stands afterwards, normalised if it was used. *)
Definition check_arguments (m : Mesh) (view_direction : option vec)
    (preset : option string) : result (vec * vec * option vec) :=
  match truthy preset with
  | Some p =>
      match get_preset_view m p with
      | None => Raise (unknown_preset p)
      | Some (camera_position, camera_up) =>
          Ok (camera_position, camera_up, view_direction)
      end
  | None =>
      match view_direction with
      | None => Raise must_specify
      | Some view_direction =>
          let view_direction := vdiv view_direction (norm view_direction) in
          let camera_distance := max_dimension m * dec 55 10 in
          Ok (vscale (vneg view_direction) camera_distance, ivec 0 0 1,
              Some view_direction)
      end
  end.

Definition mesh_center : vec := ivec 0 0 0.

(** Line 258: the extents are Python floats and are squared as such, the
    root is numpy's. *)
Definition diagonal_size (m : Mesh) : result F :=
  xx <- py_pow2 (x_size m) ;;
  yy <- py_pow2 (y_size m) ;;
  zz <- py_pow2 (z_size m) ;;
  Ok (fsqrt (xx + yy + zz)).

(** Line 259. *)
Definition camera_distance (diagonal_size : F) : F := diagonal_size * dec 18 10.

(** Lines 261-294: position, focal point and up vector.  [view_direction] is
    the one [check_arguments] left, and is normalised once more. *)
Definition place_camera (camera_distance : F) (view_direction : option vec)
    (preset : option string) : result (vec * vec * vec) :=
  let '(c0, c1, c2) := mesh_center in
  match truthy preset with
  | Some preset =>
      let p := str_lower preset in
      if String.eqb p "top" then
        Ok ((c0, c1, c2 + camera_distance), mesh_center, ivec 0 1 0)
      else if String.eqb p "front" then
        Ok ((c0, c1 - camera_distance, c2), mesh_center, ivec 0 0 1)
      else if String.eqb p "back" then
        Ok ((c0, c1 + camera_distance, c2), mesh_center, ivec 0 0 1)
      else if String.eqb p "left" then
        Ok ((c0 - camera_distance, c1, c2), mesh_center, ivec 0 0 1)
      else if String.eqb p "right" then
        Ok ((c0 + camera_distance, c1, c2), mesh_center, ivec 0 0 1)
      else if String.eqb p "bottom" then
        Ok ((c0, c1, c2 - camera_distance), mesh_center, ivec 0 1 0)
      else Raise (unknown_preset preset)
  | None =>
      match view_direction with
      | None => Raise must_specify      (* excluded by [check_arguments] *)
      | Some view_direction =>
          let view_direction := vdiv view_direction (norm view_direction) in
          Ok (vsub mesh_center (vscale view_direction camera_distance),
              mesh_center, ivec 0 0 1)
      end
  end.

(** Lines 303-305. *)
Definition clipping (diagonal_size : F) (camera_position focal_point : vec)
  : F * F :=
  let distance := norm (vsub camera_position focal_point) in
  let near_clip := py_max (distance - diagonal_size) (distance * dec 1 10) in
  let far_clip := distance + diagonal_size in
  (near_clip, far_clip).

(** [current_bounds and len(current_bounds) >= 6] *)
Definition valid_bounds (current_bounds : option (list F)) : option (list F) :=
  match current_bounds with
  | Some cb =>
      if (negb (List.length cb =? 0) && (6 <=? List.length cb))%nat
      then Some cb else None
  | None => None
  end.

Definition visible_width (cb : list F) : F :=
  py_max (nth 1 cb (of_int 0) - nth 0 cb (of_int 0))
         (nth 3 cb (of_int 0) - nth 2 cb (of_int 0)).

(** Lines 313-324: the zoom passed to [camera.zoom], if any.  The sizes and
    the visible bounds are Python floats, whose division raises on zero. *)
Definition intelligent_zoom (m : Mesh) (current_bounds : option (list F))
  : result (option F) :=
  let max_size := py_max3 (x_size m) (y_size m) (z_size m) in
  match valid_bounds current_bounds with
  | Some cb =>
      let target_fill := dec 875 1000 in
      if visible_width cb >? of_int 0 then
        ratio <- py_div (visible_width cb) max_size ;;
        zoom_factor <- py_div target_fill ratio ;;
        Ok (Some (py_max (dec 5 10) (py_min (dec 3 1) zoom_factor)))
      else Ok None
  | None => Ok None
  end.

(** [render_view(view_direction, preset)], with the answer of
    [plotter.renderer.ComputeVisiblePropBounds()] as [current_bounds].  The
    file name, the plotter and the picture itself are left out: the value is
    the camera set-up the method computes. *)
Definition render_view (m : Mesh) (view_direction : option vec)
    (preset : option string) (current_bounds : option (list F))
  : result Camera :=
  checked <- check_arguments m view_direction preset ;;
  let '(_, _, view_direction) := checked in
  diagonal_size <- diagonal_size m ;;
  placed <- place_camera (camera_distance diagonal_size) view_direction preset ;;
  let '(camera_position, focal_point, camera_up) := placed in
  zoom_factor <- intelligent_zoom m current_bounds ;;
  Ok {| position := camera_position;
        focal_point := focal_point;
        up := camera_up;
        view_angle := dec 30 1;
        clipping_range := clipping diagonal_size camera_position focal_point;
        zoom := zoom_factor |}.

End Renderer.

(** ** The callers of [find_best_front_views] and [render_view] *)

(** [f"{n:02d}"] for a non-negative [n]: decimal, padded with a zero to two
    characters. *)
Definition format_02d (n : nat) : string :=
  let digits := NilZero.string_of_uint (Nat.to_uint n) in
  if (String.length digits <? 2)%nat then ("0" ++ digits)%string else digits.

(** [text.split(sep)] for a separator of one character. *)
Fixpoint split_on (sep : ascii) (text : string) : list string :=
  match text with
  | EmptyString => [EmptyString]
  | String c rest =>
      if Ascii.eqb c sep then EmptyString :: split_on sep rest
      else match split_on sep rest with
           | [] => [String c EmptyString]      (* not reached *)
           | part :: parts => String c part :: parts
           end
  end.

Section Callers.

Context {F : Type} {AF : Arith F} {SL : StrLower}.
Local Open Scope arith_scope.

Variable PCA_fit : list (@vec F) -> result (@vec F * @vec F * @vec F).

(** What [ComputeVisiblePropBounds] answers inside the call
    [render_view(view_direction, preset)]. *)
Variable visible_bounds : option (@vec F) -> option string -> option (list F).

(** The builtin [int] on a string: the number, or [None] for [ValueError]. *)
Variable py_int : string -> option Z.

(** [model_renderer.py], lines 217-222: the name of the picture inside the
    output directory. *)
Definition output_filename (base_filename : string)
    (preset filename : option string) : string :=
  match filename with
  | Some name => name
  | None =>
      match truthy preset with
      | Some p => (base_filename ++ "_" ++ p ++ ".png")%string
      | None => (base_filename ++ ".png")%string
      end
  end.

(** [render_view] with the value it returns: the picture's name, once the
    camera is set and the picture taken. *)
Definition render_view_to (base_filename : string) (m : @Mesh F)
    (view_direction : option vec) (preset filename : option string)
  : result string :=
  _ <- render_view m view_direction preset
         (visible_bounds view_direction preset) ;;
  Ok (output_filename base_filename preset filename).

(** [model_renderer.py], lines 344-347. *)
Definition view_filename (base_filename : string) (n_views : Z) (i : nat)
  : string :=
  if (n_views =? 1)%Z then (base_filename ++ ".png")%string
  else (base_filename ++ "_view" ++ format_02d (i + 1) ++ ".png")%string.

(** The loop of [render_best_views], from index [i] on. *)
Fixpoint render_each (base_filename : string) (m : @Mesh F) (n_views : Z)
    (i : nat) (best_views : list (@vec F * F)) : result (list string) :=
  match best_views with
  | [] => Ok []
  | (view_dir, score) :: rest =>
      path <- render_view_to base_filename m (Some view_dir) None
                (Some (view_filename base_filename n_views i)) ;;
      rendered_paths <- render_each base_filename m n_views (S i) rest ;;
      Ok (path :: rendered_paths)
  end.

(** [model_renderer.py], lines 338-357. *)
Definition render_best_views (base_filename : string) (m : @Mesh F)
    (n_views : Z) : result (list string) :=
  best_views <- find_best_front_views PCA_fit m n_views ;;
  render_each base_filename m n_views 0 best_views.

(** [render_3d.py], lines 137-147: the three standard pictures. *)
Definition standard_view_names : list string :=
  [ "front"%string; "top"%string; "back"%string ].

Fixpoint render_presets (base_filename : string) (m : @Mesh F)
    (names : list string) : result (list string) :=
  match names with
  | [] => Ok []
  | view_name :: rest =>
      path <- render_view_to base_filename m None (Some view_name) None ;;
      rendered_paths <- render_presets base_filename m rest ;;
      Ok (path :: rendered_paths)
  end.

(** [render_3d.py], lines 155-167: whether the best view found is away from
    the three standard directions. *)
Definition standard_directions : list (string * @vec F) :=
  [ ("front"%string, ivec 0 (-1) 0);
    ("top"%string, ivec 0 0 1);
    ("back"%string, ivec 0 1 0) ].

Definition is_different (auto_view_dir : @vec F) : bool :=
  forallb (fun entry => negb (fabs (dot auto_view_dir (snd entry)) >? dec 9 10))
          standard_directions.

(** [render_3d.py], lines 131-184: the default run, which renders front, top
    and back, and the best view found if it is different. *)
Definition render_default_views (base_filename : string) (m : @Mesh F)
  : result (list string) :=
  rendered_paths <- render_presets base_filename m standard_view_names ;;
  best_views <- find_best_front_views PCA_fit m 1 ;;
  match best_views with
  | [] => Ok rendered_paths
  | (auto_view_dir, auto_score) :: _ =>
      if is_different auto_view_dir then
        auto_path <- render_view_to base_filename m (Some auto_view_dir) None
                       (Some (base_filename ++ "_auto.png")%string) ;;
        Ok (rendered_paths ++ [auto_path])%list
      else Ok rendered_paths
  end.

(** Both [main] functions: [width, height = map(int, text.split('x'))], with
    1080 x 1080 on any exception. *)
Definition parse_resolution (text : string) : Z * Z :=
  match map py_int (split_on "x" text) with
  | [Some width; Some height] => (width, height)
  | _ => (1080, 1080)%Z
  end.

End Callers.

(** ** Renderers

    A renderer that reports no visible bounds, and one that reports the
    bounding box of the mesh it is shown, which is what the scene of
    [render_view] holds. *)

Definition no_bounds {F : Type} (_ : option (F * F * F)) (_ : option string)
  : option (list F) := None.

Definition bounds_list {F : Type} (b : F * F * F * F * F * F) : list F :=
  let '(x0, x1, y0, y1, z0, z1) := b in [x0; x1; y0; y1; z0; z1].

Definition own_bounds {F : Type} {AF : Arith F} (m : @Mesh F)
    (_ : option (F * F * F)) (_ : option string) : option (list F) :=
  Some (bounds_list (bounds m)).

(** ** Data for running the code

    A closed box of size 3 x 2 x 1 centred on the origin, with twelve
    triangular faces, and its three principal axes. *)

(** [VTK_DOUBLE_MAX], the double nearest to 1e299. *)
Module Vtk.
Import PrimFloat.
Definition vtk_double_max : float := 0x1.31cfd3999f7bp+993%float.
(** 1e200, half the width of a box whose squared width is out of range. *)
Definition half_width : float := 0x1.4e718d7d7625ap+664%float.
End Vtk.

Module Examples.

(** Text of ASCII characters, on which [str.lower] is [lower]. *)
Definition ascii_lower : StrLower := lower.

Definition fv (x y z : Z) : @vec PrimFloat.float := ivec x y z.

Definition box_normals : list (@vec PrimFloat.float) :=
  [ fv 1 0 0; fv 1 0 0; fv (-1) 0 0; fv (-1) 0 0;
    fv 0 1 0; fv 0 1 0; fv 0 (-1) 0; fv 0 (-1) 0;
    fv 0 0 1; fv 0 0 1; fv 0 0 (-1); fv 0 0 (-1) ].

Definition box_points : list (@vec PrimFloat.float) :=
  [ (dec (-3) 2, dec (-1) 1, dec (-1) 2); (dec 3 2, dec (-1) 1, dec (-1) 2);
    (dec (-3) 2, dec 1 1, dec (-1) 2);    (dec 3 2, dec 1 1, dec (-1) 2);
    (dec (-3) 2, dec (-1) 1, dec 1 2);    (dec 3 2, dec (-1) 1, dec 1 2);
    (dec (-3) 2, dec 1 1, dec 1 2);       (dec 3 2, dec 1 1, dec 1 2) ].

Definition box : @Mesh PrimFloat.float :=
  {| points := box_points;
     n_cells := 12;
     cell_data_Normals := None;
     face_normals := Ok box_normals;
     bounds := (dec (-3) 2, dec 3 2, dec (-1) 1, dec 1 1, dec (-1) 2, dec 1 2) |}.

(** A fit that rejects an empty point set, as the input check of sklearn
    does, and otherwise answers with the coordinate axes, which are the
    principal axes of [box]. *)
Definition no_samples : exn :=
  ValueError "Found array with 0 sample(s) (shape=(0, 3)) while a minimum of 1 is required by PCA.".

Definition axes_fit (pts : list (@vec PrimFloat.float))
  : result (@vec PrimFloat.float * @vec PrimFloat.float * @vec PrimFloat.float) :=
  match pts with
  | [] => Raise no_samples
  | _ => Ok (fv 1 0 0, fv 0 1 0, fv 0 0 1)
  end.

(** The mesh without points or faces, with the bounds pyvista reports for
    it: every lower bound 1e299, every upper bound -1e299. *)
Definition empty_mesh : @Mesh PrimFloat.float :=
  {| points := [];
     n_cells := 0;
     cell_data_Normals := None;
     face_normals := Ok [];
     bounds := (Vtk.vtk_double_max, PrimFloat.opp Vtk.vtk_double_max,
                Vtk.vtk_double_max, PrimFloat.opp Vtk.vtk_double_max,
                Vtk.vtk_double_max, PrimFloat.opp Vtk.vtk_double_max) |}.

(** The box stretched to a width of 2e200 along x. *)
Definition huge_box : @Mesh PrimFloat.float :=
  {| points := box_points;
     n_cells := 12;
     cell_data_Normals := None;
     face_normals := Ok box_normals;
     bounds := (PrimFloat.opp Vtk.half_width, Vtk.half_width,
                dec (-1) 1, dec 1 1, dec (-1) 2, dec 1 2) |}.

(** A single triangle whose three corners coincide at the origin: every
    extent is zero. *)
Definition collapsed_triangle : @Mesh PrimFloat.float :=
  {| points := [fv 0 0 0; fv 0 0 0; fv 0 0 0];
     n_cells := 1;
     cell_data_Normals := None;
     face_normals := Ok [fv 0 0 0];
     bounds := (dec 0 1, dec 0 1, dec 0 1, dec 0 1, dec 0 1, dec 0 1) |}.

(** The bounds the renderer reports for it. *)
Definition collapsed_bounds : list PrimFloat.float :=
  [dec 0 1; dec 0 1; dec 0 1; dec 0 1; dec 0 1; dec 0 1].

(** The unit cube centred on the origin, in binary64. *)
Definition cube64 : @Mesh PrimFloat.float :=
  {| points :=
       [ (dec (-1) 2, dec (-1) 2, dec (-1) 2); (dec 1 2, dec (-1) 2, dec (-1) 2);
         (dec (-1) 2, dec 1 2, dec (-1) 2);    (dec 1 2, dec 1 2, dec (-1) 2);
         (dec (-1) 2, dec (-1) 2, dec 1 2);    (dec 1 2, dec (-1) 2, dec 1 2);
         (dec (-1) 2, dec 1 2, dec 1 2);       (dec 1 2, dec 1 2, dec 1 2) ];
     n_cells := 12;
     cell_data_Normals := None;
     face_normals := Ok box_normals;
     bounds := (dec (-1) 2, dec 1 2, dec (-1) 2, dec 1 2, dec (-1) 2, dec 1 2) |}.

(** The unit cube centred on the origin, in exact arithmetic. *)
Definition unit_cube : @Mesh R :=
  {| points :=
       [ (dec (-1) 2, dec (-1) 2, dec (-1) 2); (dec 1 2, dec (-1) 2, dec (-1) 2);
         (dec (-1) 2, dec 1 2, dec (-1) 2);    (dec 1 2, dec 1 2, dec (-1) 2);
         (dec (-1) 2, dec (-1) 2, dec 1 2);    (dec 1 2, dec (-1) 2, dec 1 2);
         (dec (-1) 2, dec 1 2, dec 1 2);       (dec 1 2, dec 1 2, dec 1 2) ];
     n_cells := 12;
     cell_data_Normals := None;
     face_normals :=
       Ok [ ivec 1 0 0; ivec 1 0 0; ivec (-1) 0 0; ivec (-1) 0 0;
            ivec 0 1 0; ivec 0 1 0; ivec 0 (-1) 0; ivec 0 (-1) 0;
            ivec 0 0 1; ivec 0 0 1; ivec 0 0 (-1); ivec 0 0 (-1) ];
     bounds := (dec (-1) 2, dec 1 2, dec (-1) 2, dec 1 2, dec (-1) 2, dec 1 2) |}.

(** A finely meshed unit cube: the same box with 200 000 faces, whose
    normals are not looked at. *)
Definition fine_cube : @Mesh R :=
  {| points := points unit_cube;
     n_cells := 200000;
     cell_data_Normals := None;
     face_normals := Raise (Raised "face_normals");
     bounds := bounds unit_cube |}.

(** The bounds the renderer reports for the unit cube. *)
Definition unit_cube_bounds : list R :=
  [ dec (-1) 2; dec 1 2; dec (-1) 2; dec 1 2; dec (-1) 2; dec 1 2 ].

(** The coordinate axes as the fit of any non-empty point set, in exact
    arithmetic. *)
Definition raxes_fit (pts : list (@vec R))
  : result (@vec R * @vec R * @vec R) :=
  match pts with
  | [] => Raise no_samples
  | _ => Ok (ivec 1 0 0, ivec 0 1 0, ivec 0 0 1)
  end.

(** [int] on plain decimal text, enough to run [parse_resolution]. *)
Definition decimal_int (text : string) : option Z :=
  option_map (fun d => Z.of_nat (Nat.of_uint d)) (NilZero.uint_of_string text).

End Examples.

(** ** Vocabulary of the statements *)

Section Vocabulary.

Context {F : Type} {AF : Arith F} {SL : StrLower}.
Local Open Scope arith_scope.

(** Directions of a result, in order. *)
Definition directions (views : list (@vec F * F)) : list (@vec F) := map fst views.

(** The test of the selection loop, on two directions. *)
Definition too_close (d e : @vec F) : bool := dot d e >? dec 9 10.

(** Every entry passed the test against every entry before it. *)
Definition separated (l : list (@ScoredView F)) : Prop :=
  forall i j v w,
    (i < j)%nat -> nth_error l i = Some v -> nth_error l j = Some w ->
    too_close (dir_of w) (dir_of v) = false.

(** The two priority tags. *)
Definition is_priority_name (name : string) : bool :=
  (String.eqb name "top" || String.eqb name "front")%bool.

(** The largest of [|d.a|] over the three principal axes [a]. *)
Definition pca_alignment (fit : @vec F * @vec F * @vec F) (d : @vec F) : F :=
  let '(a0, a1, a2) := fit in
  py_max (py_max (fabs (dot d a0)) (fabs (dot d a1))) (fabs (dot d a2)).

(** The score as the specification words it. *)
Definition spec_final_score (m : Mesh) (fit : @vec F * @vec F * @vec F)
    (d : @vec F) (name : string) : F :=
  let base := dec 2 1 * pca_alignment fit d + dec 3 1 * visibility_score m d in
  if is_priority_name name then base + dec 1 1 else base.

(** The share of the normals [f] with [f.d > 0], the products being those
    of the array of normals with [d]. *)
Definition fraction_facing (normals : list (@vec F)) (d : @vec F) : F :=
  of_int (Z.of_nat (List.length (filter (fun f => row_dot3 f d >? of_int 0)
                                        normals)))
  / of_int (Z.of_nat (List.length normals)).

(** Tag and raw direction of a candidate. *)
Definition tagged (c : @Candidate F) : @vec F * string := fst c.

(** A result with the text of a [ValueError] left out. *)
Definition forget_message {A : Type} (r : result A) : result A :=
  match r with
  | Raise (ValueError _) => Raise (ValueError "")
  | other => other
  end.

(** Axis and up vector of the six presets, as [get_preset_view] tabulates
    them. *)
Definition preset_table : list (string * ((Z * Z * Z) * (Z * Z * Z))) :=
  [ ("front"%string,  ((0, -1, 0), (0, 0, 1)));
    ("back"%string,   ((0, 1, 0), (0, 0, 1)));
    ("top"%string,    ((0, 0, 1), (0, 1, 0)));
    ("bottom"%string, ((0, 0, -1), (0, 1, 0)));
    ("left"%string,   ((-1, 0, 0), (0, 0, 1)));
    ("right"%string,  ((1, 0, 0), (0, 0, 1))) ]%Z.

Definition zvec (v : Z * Z * Z) : @vec F :=
  let '(x, y, z) := v in ivec x y z.

(** Whether the renderer reported bounds that the zoom step acts on. *)
Definition positive_visible_width (current_bounds : option (list F)) : bool :=
  match valid_bounds current_bounds with
  | Some cb => visible_width cb >? of_int 0
  | None => false
  end.

(** Whether the arguments name a preset that is known once lower-cased, or,
    without a preset, give a direction. *)
Definition arguments_accepted (view_direction : option (@vec F))
    (preset : option string) : bool :=
  match truthy preset with
  | Some p => existsb (String.eqb (str_lower p)) preset_names
  | None => match view_direction with Some _ => true | None => false end
  end.

(** Whether the square of a finite number is out of range. *)
Definition square_overflows (x : F) : bool :=
  (negb (is_inf x) && is_inf (pow2 x))%bool.

(** Whether the square of one of the three extents is out of range. *)
Definition extent_overflows (m : @Mesh F) : bool :=
  let '(x0, x1, y0, y1, z0, z1) := bounds m in
  (square_overflows (x1 - x0) || square_overflows (y1 - y0)
   || square_overflows (z1 - z0))%bool.

(** The largest of the three extents of the bounding box. *)
Definition largest_extent (m : @Mesh F) : F :=
  let '(x0, x1, y0, y1, z0, z1) := bounds m in
  py_max (py_max (x1 - x0) (y1 - y0)) (z1 - z0).

(** Whether the zoom step has a positive visible width (the larger of the
    reported spans in x and y) to divide and a divisor that is zero: the
    largest extent, or the ratio of the width to it. *)
Definition zoom_divides_by_zero (m : @Mesh F) (current_bounds : option (list F))
  : bool :=
  match valid_bounds current_bounds with
  | Some cb =>
      let width := py_max (nth 1 cb (of_int 0) - nth 0 cb (of_int 0))
                          (nth 3 cb (of_int 0) - nth 2 cb (of_int 0)) in
      ((width >? of_int 0)
       && (feq (largest_extent m) (of_int 0)
           || feq (width / largest_extent m) (of_int 0)))%bool
  | None => false
  end.

End Vocabulary.


(** What the statements on upper-case names use of [str.lower]: on ASCII
    text it is [lower], lower-casing twice is lower-casing once, and no text
    but the empty one becomes empty. *)
Record lower_laws (SL : StrLower) : Prop := {
  lower_on_ascii : forall t, is_ascii_text t = true -> str_lower t = lower t;
  lower_twice : forall t, str_lower (str_lower t) = str_lower t;
  lower_not_empty : forall t, t <> ""%string -> str_lower t <> ""%string
}.

(** Whether a character occurs in a text. *)
Fixpoint has_char (c : ascii) (text : string) : bool :=
  match text with
  | EmptyString => false
  | String a rest => (Ascii.eqb a c || has_char c rest)%bool
  end.

(** A list picked out of another, order kept. *)
Inductive subseq {A : Type} : list A -> list A -> Prop :=
| subseq_nil : subseq [] []
| subseq_skip (x : A) (s l : list A) : subseq s l -> subseq s (x :: l)
| subseq_take (x : A) (s l : list A) : subseq s l -> subseq (x :: s) (x :: l).

(** Over the reals: [a] may stand before [b] in a descending list. *)
Definition descending (a b : @ScoredView R) : Prop :=
  (score_of b <= score_of a)%R.

(** Over the reals: the entries with score [k]. *)
Definition with_score (k : R) (l : list (@ScoredView R)) : list (@ScoredView R) :=
  filter (fun v => Reqb (score_of v) k) l.

(** Over the reals: a direction that is not the zero vector. *)
Definition nonzero (v : @vec R) : Prop := dot v v <> 0%R.

(** Over the reals: the length of the diagonal of the bounding box. *)
Definition box_diagonal (m : @Mesh R) : R :=
  sqrt (x_size m * x_size m + y_size m * y_size m + z_size m * z_size m)%R.

(** Over the reals: a bounding box with no negative extent. *)
Definition well_formed_bounds (m : @Mesh R) : Prop :=
  (0 <= x_size m /\ 0 <= y_size m /\ 0 <= z_size m)%R.

(** Over the reals: a call that names a preset, or gives a direction that
    can be normalised. *)
Definition usable_direction (preset : option string) (vd : option (@vec R))
  : Prop :=
  match truthy preset, vd with
  | None, Some d => nonzero d
  | _, _ => True
  end.


(** The two algebraic laws the statements on scoring and selection need:
    a product does not depend on the order of its factors.  They hold in
    binary64 as in the reals. *)
Class ArithLaws (F : Type) {AF : Arith F} : Prop := {
  mul_comm : forall x y : F, mul x y = mul y x;
  dot3_comm : forall a b : F * F * F, dot3 a b = dot3 b a
}.
Arguments ArithLaws F {AF}.


(** * Properties of the view selection *)

Section Selection.

Context {F : Type} {AF : Arith F}.
Local Open Scope arith_scope.

Lemma separated_nil : separated [].
Proof. intros i j v w _ Hi. destruct i; discriminate. Qed.

Lemma is_unique_spec (d : @vec F) (l : list ScoredView) :
  is_unique d l = true ->
  forall v, In v l -> too_close d (dir_of v) = false.
Proof.
  unfold is_unique. rewrite forallb_forall. intros H v Hv.
  apply H in Hv. now apply negb_true_iff in Hv.
Qed.

Lemma separated_snoc (l : list ScoredView) (w : ScoredView) :
  separated l -> is_unique (dir_of w) l = true -> separated (l ++ [w]).
Proof.
  intros Hl Hw i j a b Hij Hi Hj.
  destruct (Nat.lt_ge_cases j (List.length l)) as [Hjl | Hjl].
  - rewrite nth_error_app1 in Hi by lia.
    rewrite nth_error_app1 in Hj by lia.
    exact (Hl i j a b Hij Hi Hj).
  - rewrite nth_error_app2 in Hj by lia.
    destruct (j - List.length l)%nat as [|k] eqn:Ek.
    + injection Hj as <-.
      rewrite nth_error_app1 in Hi by lia.
      apply (is_unique_spec _ _ Hw). eapply nth_error_In; eauto.
    + destruct k; discriminate.
Qed.

Lemma select_views_separated (n_views : Z) (rest unique_views : list ScoredView) :
  separated unique_views -> separated (select_views n_views unique_views rest).
Proof.
  revert unique_views.
  induction rest as [|v rest IH]; intros u Hu; simpl; [exact Hu|].
  destruct (is_unique (dir_of v) u) eqn:Eu.
  - destruct (Z.of_nat (List.length (u ++ [v])) >=? n_views)%Z.
    + now apply separated_snoc.
    + apply IH. now apply separated_snoc.
  - destruct (Z.of_nat (List.length u) >=? n_views)%Z; [exact Hu | now apply IH].
Qed.

Lemma dot_comm `{!ArithLaws F} (a b : @vec F) : dot a b = dot b a.
Proof. unfold dot. apply dot3_comm. Qed.

Lemma Ok_inj (A : Type) (a b : A) : Ok a = Ok b -> a = b.
Proof. congruence. Qed.

(** A call that returns has fitted the axes and selected from the sorted
    scores. *)
Lemma find_best_front_views_Ok
    (PCA_fit : list (@vec F) -> result (@vec F * @vec F * @vec F))
    (m : Mesh) (n_views : Z) (views : list (@vec F * F)) :
  find_best_front_views PCA_fit m n_views = Ok views ->
  exists fit,
    PCA_fit (points m) = Ok fit /\
    views = map (fun v => (dir_of v, score_of v))
                (select_views n_views [] (sort_desc (scored_views m fit))).
Proof.
  unfold find_best_front_views, bind.
  destruct (PCA_fit (points m)) as [fit|e]; [|discriminate].
  intros H. exists fit. split; [reflexivity|].
  symmetry. exact (Ok_inj H).
Qed.

End Selection.

Lemma float_mul_comm (x y : PrimFloat.float) :
  PrimFloat.mul x y = PrimFloat.mul y x.
Proof.
  apply FloatAxioms.Prim2SF_inj.
  rewrite !FloatAxioms.mul_spec.
  unfold FloatAxioms.SF64mul, SpecFloat.SFmul.
  destruct (FloatOps.Prim2SF x) as [sx|sx| |sx mx ex],
           (FloatOps.Prim2SF y) as [sy|sy| |sy my ey]; simpl;
    try reflexivity; try (rewrite xorb_comm; reflexivity).
  rewrite xorb_comm, Pos.mul_comm, Z.add_comm.
  reflexivity.
Qed.

#[export] Instance float_laws : @ArithLaws PrimFloat.float float_arith.
Proof.
  constructor; [exact float_mul_comm|].
  intros [[a0 a1] a2] [[b0 b1] b2]. cbn [dot3 float_arith].
  now rewrite (float_mul_comm a0), (float_mul_comm a1), (float_mul_comm a2).
Qed.

#[export] Instance R_laws : @ArithLaws R R_arith.
Proof.
  constructor; [exact Rmult_comm|].
  intros [[a0 a1] a2] [[b0 b1] b2]. cbn [dot3 R_arith].
  now rewrite (Rmult_comm a0), (Rmult_comm a1), (Rmult_comm a2).
Qed.


(** *** De-duplication *)

(** C1, counterexample.  On the box with [n_views = 4] the third and fourth
    views returned are the first principal axis and its opposite: the absolute
    value of their dot product is 1, above 0.9. *)
Lemma C1_opposite_views_both_returned :
  exists views d2 d3,
    find_best_front_views Examples.axes_fit Examples.box 4 = Ok views /\
    nth_error (directions views) 2 = Some d2 /\
    nth_error (directions views) 3 = Some d3 /\
    (fabs (dot d2 d3) >? dec 9 10)%A = true.
Proof.
  eexists; eexists; eexists.
  split; [vm_compute; reflexivity|].
  split; [reflexivity|].
  split; [reflexivity|].
  vm_compute; reflexivity.
Qed.

(** C1, as amended.  No two directions returned by [find_best_front_views]
    have a dot product above 0.9: the test is on the dot product itself, not
    on its absolute value, so opposite directions are kept apart. *)
Theorem C1_no_two_views_too_close
    (F : Type) (AF : Arith F) (LF : ArithLaws F)
    (PCA_fit : list (@vec F) -> result (@vec F * @vec F * @vec F))
    (m : Mesh) (n_views : Z) (views : list (@vec F * F)) :
  find_best_front_views PCA_fit m n_views = Ok views ->
  forall i j d_i d_j,
    i <> j ->
    nth_error (directions views) i = Some d_i ->
    nth_error (directions views) j = Some d_j ->
    too_close d_i d_j = false.
Proof.
  intros Hv i j d_i d_j Hij Hi Hj.
  destruct (find_best_front_views_Ok _ _ _ Hv) as (fit & _ & ->).
  set (u := select_views n_views [] (sort_desc (scored_views m fit))) in *.
  assert (Hu : separated u) by (apply select_views_separated, separated_nil).
  unfold directions in Hi, Hj.
  rewrite map_map, nth_error_map in Hi, Hj.
  destruct (nth_error u i) as [v|] eqn:Ei; [|discriminate].
  destruct (nth_error u j) as [w|] eqn:Ej; [|discriminate].
  cbn [option_map fst] in Hi, Hj. injection Hi as <-. injection Hj as <-.
  destruct (Nat.lt_gt_cases i j) as [H _]. destruct (H Hij) as [Hlt | Hlt].
  - unfold too_close. rewrite dot_comm. exact (Hu i j v w Hlt Ei Ej).
  - exact (Hu j i w v Hlt Ej Ei).
Qed.

Lemma C1_no_two_views_too_close_witness :
  too_close (F := PrimFloat.float)
            (Examples.fv 1 0 0) (vneg (Examples.fv 1 0 0)) = false.
Proof.
  apply (@C1_no_two_views_too_close PrimFloat.float _ _
           Examples.axes_fit Examples.box 4 _ eq_refl 2%nat 3%nat).
  - discriminate.
  - reflexivity.
  - reflexivity.
Defined.

(** *** Scoring *)

Section Scoring.

Context {F : Type} {AF : Arith F}.
Local Open Scope arith_scope.

Lemma count_positive_map (d : @vec F) (normals : list (@vec F)) :
  count_positive (dot_rows normals d)
  = Z.of_nat (List.length (filter (fun f => row_dot3 f d >? of_int 0) normals)).
Proof.
  unfold count_positive, dot_rows. f_equal.
  induction normals as [|f l IH]; simpl; [reflexivity|].
  destruct (row_dot3 f d >? of_int 0); simpl; now rewrite IH.
Qed.

Lemma visibility_score_large (m : Mesh) (d : @vec F) :
  (100000 <= n_cells m)%Z -> visibility_score m d = dec 6 10.
Proof.
  intros H. unfold visibility_score.
  replace (n_cells m <? 100000)%Z with false by (symmetry; apply Z.ltb_ge; lia).
  now rewrite andb_false_r.
Qed.

Lemma visibility_score_mid (m : Mesh) (d : @vec F) :
  (0 < n_cells m < 100000)%Z ->
  visibility_score m d
  = match mesh_normals m with
    | Ok normals => fraction_facing normals d
    | Raise _ => dec 6 10
    end.
Proof.
  intros [H0 H1]. unfold visibility_score.
  replace (0 <? n_cells m)%Z with true by (symmetry; apply Z.ltb_lt; lia).
  replace (n_cells m <? 100000)%Z with true by (symmetry; apply Z.ltb_lt; lia).
  simpl. destruct (mesh_normals m) as [ns|e]; [|reflexivity].
  unfold fraction_facing. now rewrite count_positive_map.
Qed.

End Scoring.

(** C2.  Each of the fourteen candidates, normalised to [d], is scored
    [2.0 * (max over the three principal axes a of |d.a|) + 3.0 * visibility],
    plus [1.0] exactly when its tag is "top" or "front"; and the candidates
    carrying those tags are (0,0,1) and (0,-1,0), the first two generated. *)
Theorem C2_final_score
    (F : Type) (AF : Arith F) (LF : ArithLaws F)
    (m : Mesh) (fit : @vec F * @vec F * @vec F) :
  Forall2
    (fun (c : Candidate) (v : ScoredView) =>
       let d := normalize (fst (tagged c)) in
       v = (d, spec_final_score m fit d (snd (tagged c)), snd (tagged c)))
    (all_candidates (components_ fit)) (scored_views m fit)
  /\ map tagged
       (filter (fun c => is_priority_name (snd (tagged c)))
               (all_candidates (components_ fit)))
     = [ (ivec 0 0 1, "top"%string); (ivec 0 (-1) 0, "front"%string) ].
Proof.
  destruct fit as [[a0 a1] a2].
  split; [|reflexivity].
  unfold scored_views, all_candidates, components_, priority_views,
    standard_views, pca_candidates.
  cbn [map app].
  repeat (apply Forall2_cons || apply Forall2_nil);
    cbn [tagged fst snd score_view];
    unfold spec_final_score, base_score, pca_alignment, pca_score, normalize;
    cbn [map fold_left];
    rewrite (mul_comm (dec 2 1)), (mul_comm (dec 3 1));
    reflexivity.
Qed.

Lemma C2_final_score_witness :
  Forall2
    (fun (c : Candidate) (v : ScoredView) =>
       let d := normalize (fst (tagged c)) in
       v = (d,
            spec_final_score Examples.box
              (Examples.fv 1 0 0, Examples.fv 0 1 0, Examples.fv 0 0 1) d
              (snd (tagged c)),
            snd (tagged c)))
    (all_candidates [Examples.fv 1 0 0; Examples.fv 0 1 0; Examples.fv 0 0 1])
    (scored_views Examples.box
       (Examples.fv 1 0 0, Examples.fv 0 1 0, Examples.fv 0 0 1)).
Proof.
  exact (proj1 (@C2_final_score PrimFloat.float _ _ Examples.box
                  (Examples.fv 1 0 0, Examples.fv 0 1 0, Examples.fv 0 0 1))).
Defined.

(** C4.  With 100 000 faces or more the visibility term is the constant 0.6
    for every direction; with a face count strictly between 0 and 100 000 it
    is the share of the face normals [f] with [f.d > 0]; and if the normals
    cannot be had it is 0.6 and the call completes all the same. *)
Theorem C4_visibility
    (F : Type) (AF : Arith F)
    (PCA_fit : list (@vec F) -> result (@vec F * @vec F * @vec F))
    (m : Mesh) :
  ((100000 <= n_cells m)%Z -> forall d, visibility_score m d = dec 6 10)
  /\ ((0 < n_cells m < 100000)%Z ->
      forall normals, mesh_normals m = Ok normals ->
      forall d, visibility_score m d = fraction_facing normals d)
  /\ ((0 < n_cells m < 100000)%Z ->
      forall e, mesh_normals m = Raise e ->
      (forall d, visibility_score m d = dec 6 10)
      /\ (forall n_views fit, PCA_fit (points m) = Ok fit ->
          is_Ok (find_best_front_views PCA_fit m n_views) = true)).
Proof.
  split; [|split].
  - intros H d. now apply visibility_score_large.
  - intros H ns Hns d. rewrite visibility_score_mid by exact H. now rewrite Hns.
  - intros H e He. split.
    + intros d. rewrite visibility_score_mid by exact H. now rewrite He.
    + intros n fit Hfit. unfold find_best_front_views. now rewrite Hfit.
Qed.

Lemma C4_visibility_witness :
  visibility_score Examples.box (Examples.fv 0 0 1)
  = fraction_facing Examples.box_normals (Examples.fv 0 0 1).
Proof.
  apply (proj1 (proj2 (@C4_visibility PrimFloat.float _ Examples.axes_fit
                         Examples.box))).
  - simpl. lia.
  - reflexivity.
Defined.

(** *** Number of views returned *)

Section Length.

Context {F : Type} {AF : Arith F}.

Lemma select_views_length (n_views : Z) (rest unique_views : list (@ScoredView F)) :
  (Z.of_nat (List.length unique_views) < n_views)%Z ->
  (Z.of_nat (List.length (select_views n_views unique_views rest)) <= n_views)%Z.
Proof.
  revert unique_views.
  induction rest as [|v rest IH]; intros u Hu; simpl; [lia|].
  destruct (is_unique (dir_of v) u).
  - destruct (Z.geb_spec (Z.of_nat (List.length (u ++ [v]))) n_views) as [H|H].
    + rewrite length_app in *. simpl in *. lia.
    + apply IH. lia.
  - destruct (Z.geb_spec (Z.of_nat (List.length u)) n_views) as [H|H]; [lia|].
    now apply IH.
Qed.

Lemma insert_desc_not_nil (v : @ScoredView F) (l : list ScoredView) :
  insert_desc v l <> [].
Proof. destruct l as [|w l]; simpl; [|destruct (lt _ _)]; discriminate. Qed.

(** With [n_views <= 1] the loop stops after its first round, which always
    accepts the best-scored candidate. *)
Lemma select_views_le_1 (n_views : Z) (v : @ScoredView F) (rest : list ScoredView) :
  (n_views <= 1)%Z -> select_views n_views [] (v :: rest) = [v].
Proof.
  intros H. simpl.
  destruct (Z.geb_spec 1 n_views) as [_|H']; [reflexivity | lia].
Qed.

End Length.

(** For [n_views >= 1] at most [n_views] views are returned. *)
Lemma find_best_front_views_length
    (F : Type) (AF : Arith F)
    (PCA_fit : list (@vec F) -> result (@vec F * @vec F * @vec F))
    (m : Mesh) (n_views : Z) (views : list (@vec F * F)) :
  (1 <= n_views)%Z ->
  find_best_front_views PCA_fit m n_views = Ok views ->
  (Z.of_nat (List.length views) <= n_views)%Z.
Proof.
  intros Hn Hv.
  destruct (find_best_front_views_Ok _ _ _ Hv) as (fit & _ & ->).
  rewrite length_map. apply select_views_length. simpl. lia.
Qed.

(** For [n_views <= 1], and so for 0, exactly one view is returned. *)
Lemma find_best_front_views_at_least_one
    (F : Type) (AF : Arith F)
    (PCA_fit : list (@vec F) -> result (@vec F * @vec F * @vec F))
    (m : Mesh) (n_views : Z) (views : list (@vec F * F)) :
  (n_views <= 1)%Z ->
  find_best_front_views PCA_fit m n_views = Ok views ->
  List.length views = 1%nat.
Proof.
  intros Hn Hv.
  destruct (find_best_front_views_Ok _ _ _ Hv) as (fit & _ & ->).
  rewrite length_map.
  destruct (sort_desc (scored_views m fit)) as [|v rest] eqn:E.
  - destruct fit as [[a0 a1] a2]. unfold scored_views, sort_desc in E.
    simpl in E. now apply insert_desc_not_nil in E.
  - now rewrite select_views_le_1.
Qed.

(** C3, the failing input.  Asked for no view at all ([n_views = 0]) on the
    box, the code returns one: the "top" view with its score 3.5. *)
Lemma C3_zero_views_requested :
  find_best_front_views Examples.axes_fit Examples.box 0
  = Ok [ (normalize (Examples.fv 0 0 1), dec 35 10) ]
  /\ ~ (Z.of_nat (List.length [ (normalize (Examples.fv 0 0 1),
                                 dec 35 10 : PrimFloat.float) ]) <= 0)%Z.
Proof.
  split; [vm_compute; reflexivity | simpl; lia].
Qed.

(** * Properties of the camera framing *)

Lemma lower_ascii_idem (c : ascii) : lower_ascii (lower_ascii c) = lower_ascii c.
Proof. destruct c as [[] [] [] [] [] [] [] []]; reflexivity. Qed.

Lemma lower_idem (s : string) : lower (lower s) = lower s.
Proof.
  induction s as [|c s IH]; simpl; [reflexivity|].
  now rewrite lower_ascii_idem, IH.
Qed.

(** [lower] has what the statements use of [str.lower]. *)
Lemma ascii_lower_laws : lower_laws Examples.ascii_lower.
Proof.
  constructor.
  - reflexivity.
  - exact lower_idem.
  - intros [|c t] H; [congruence | discriminate].
Qed.

Lemma truthy_Some (s : string) : s <> ""%string -> truthy (Some s) = Some s.
Proof. destruct s; [congruence | reflexivity]. Qed.

Lemma truthy_inv (p : option string) (s : string) :
  truthy p = Some s -> p = Some s /\ s <> ""%string.
Proof.
  destruct p as [[|c q]|]; simpl; intros H; try discriminate.
  injection H as <-. split; [reflexivity | discriminate].
Qed.

Lemma forget_message_bind (A B : Type) (r r' : result A) (k k' : A -> result B) :
  forget_message r = forget_message r' ->
  (forall a, forget_message (k a) = forget_message (k' a)) ->
  forget_message (bind r k) = forget_message (bind r' k').
Proof.
  intros Hr Hk.
  destruct r as [a|[msg| | |w]], r' as [a'|[msg'| | |w']]; simpl in *;
    try discriminate; try reflexivity; try congruence.
Qed.

Lemma bind_ext (A B : Type) (r : result A) (k k' : A -> result B) :
  (forall a, k a = k' a) -> bind r k = bind r k'.
Proof. intros H. destruct r; [apply H | reflexivity]. Qed.

(** Case analysis on a lower-cased name against the six preset names. *)
Ltac preset_cases l :=
  destruct (String.eqb_spec l "top");
  [|destruct (String.eqb_spec l "front");
    [|destruct (String.eqb_spec l "back");
      [|destruct (String.eqb_spec l "left");
        [|destruct (String.eqb_spec l "right");
          [|destruct (String.eqb_spec l "bottom")]]]]].

Section Framing.

Context {F : Type} {AF : Arith F} {SL : StrLower}.
Local Open Scope arith_scope.

Lemma get_preset_view_known (m : @Mesh F) (s : string) :
  In (str_lower s) preset_names -> get_preset_view m s <> None.
Proof.
  unfold get_preset_view, preset_names. simpl In.
  intros H. repeat (destruct H as [H|H]; [rewrite <- H; discriminate|]).
  destruct H.
Qed.

Lemma get_preset_view_unknown (m : @Mesh F) (s : string) :
  ~ In (str_lower s) preset_names -> get_preset_view m s = None.
Proof.
  intros H. unfold get_preset_view. cbn [find fst].
  repeat match goal with
  | |- context [String.eqb ?a (str_lower s)] =>
      destruct (String.eqb_spec a (str_lower s)) as [Heq|?];
      [exfalso; apply H; rewrite <- Heq; simpl; tauto|]
  end.
  reflexivity.
Qed.

Lemma existsb_preset_names (l : string) :
  existsb (String.eqb l) preset_names = true <-> In l preset_names.
Proof.
  rewrite existsb_exists. split.
  - intros (x & Hx & E). apply String.eqb_eq in E. now subst x.
  - intros H. exists l. split; [exact H | apply String.eqb_refl].
Qed.

Lemma check_arguments_preset (m : @Mesh F) (vd : option vec) (s : string) :
  s <> ""%string ->
  check_arguments m vd (Some s)
  = match get_preset_view m s with
    | None => Raise (unknown_preset s)
    | Some (camera_position, camera_up) => Ok (camera_position, camera_up, vd)
    end.
Proof. intros H. unfold check_arguments. now rewrite truthy_Some. Qed.

(** The first block accepts exactly the arguments described by
    [arguments_accepted]. *)
Lemma is_Ok_check_arguments (m : @Mesh F) (vd : option vec) (p : option string) :
  is_Ok (check_arguments m vd p) = arguments_accepted vd p.
Proof.
  unfold check_arguments, arguments_accepted.
  destruct (truthy p) as [s|]; [|now destruct vd].
  destruct (existsb (String.eqb (str_lower s)) preset_names) eqn:E.
  - apply existsb_preset_names in E.
    pose proof (@get_preset_view_known m s E) as Hk.
    destruct (get_preset_view m s) as [[pos upv]|]; [reflexivity | congruence].
  - rewrite get_preset_view_unknown; [reflexivity|].
    intros Hin. apply existsb_preset_names in Hin. congruence.
Qed.

Lemma place_camera_known (k : F) (vd : option vec) (s : string) :
  In (str_lower s) preset_names -> s <> ""%string ->
  is_Ok (place_camera k vd (Some s)) = true.
Proof.
  intros H Hs.
  unfold place_camera. rewrite truthy_Some by exact Hs.
  unfold preset_names in H. simpl In in H. cbv zeta.
  destruct mesh_center as [[c0 c1] c2].
  repeat (destruct H as [H|H]; [rewrite <- H; reflexivity|]).
  destruct H.
Qed.

(** Arguments that pass the first check are placed by the second block. *)
Lemma place_camera_checked (m : @Mesh F) (vd vd' : option vec)
    (p : option string) (pos upv : vec) (k : F) :
  check_arguments m vd p = Ok (pos, upv, vd') ->
  is_Ok (place_camera k vd' p) = true.
Proof.
  unfold check_arguments.
  destruct (truthy p) as [s|] eqn:Ep.
  - destruct (get_preset_view m s) as [[pos0 up0]|] eqn:Eg; [|discriminate].
    intros _.
    assert (Hin : In (str_lower s) preset_names).
    { destruct (in_dec string_dec (str_lower s) preset_names) as [H|H];
        [exact H|].
      apply (get_preset_view_unknown m) in H. congruence. }
    destruct (truthy_inv _ Ep) as [-> Hs].
    now apply place_camera_known.
  - unfold place_camera. rewrite Ep.
    destruct mesh_center as [[c0 c1] c2].
    destruct vd; [|discriminate].
    intros H. injection H as _ _ <-. reflexivity.
Qed.

(** The squares of line 258 raise exactly when one of them is out of
    range. *)
Lemma diagonal_size_cases (m : @Mesh F) :
  (extent_overflows m = true /\ diagonal_size m = Raise OverflowError)
  \/ (extent_overflows m = false
      /\ diagonal_size m
         = Ok (fsqrt (pow2 (x_size m) + pow2 (y_size m) + pow2 (z_size m)))).
Proof.
  unfold diagonal_size, extent_overflows, py_pow2, square_overflows,
    x_size, y_size, z_size.
  destruct (bounds m) as [[[[[x0 x1] y0] y1] z0] z1].
  destruct (negb (is_inf (x1 - x0)) && is_inf (pow2 (x1 - x0)))%bool;
    [left; split; reflexivity|].
  destruct (negb (is_inf (y1 - y0)) && is_inf (pow2 (y1 - y0)))%bool;
    [left; split; reflexivity|].
  destruct (negb (is_inf (z1 - z0)) && is_inf (pow2 (z1 - z0)))%bool;
    [left; split; reflexivity|].
  right; split; reflexivity.
Qed.

Lemma largest_extent_eq (m : @Mesh F) : largest_extent m = max_dimension m.
Proof.
  unfold largest_extent, max_dimension, py_max3, x_size, y_size, z_size.
  now destruct (bounds m) as [[[[[x0 x1] y0] y1] z0] z1].
Qed.

(** The zoom step raises exactly when it divides by zero. *)
Lemma intelligent_zoom_cases (m : @Mesh F) (cb : option (list F)) :
  (zoom_divides_by_zero m cb = true
   /\ intelligent_zoom m cb = Raise ZeroDivisionError)
  \/ (zoom_divides_by_zero m cb = false
      /\ exists z, intelligent_zoom m cb = Ok z
                   /\ (positive_visible_width cb = false -> z = None)).
Proof.
  unfold zoom_divides_by_zero, intelligent_zoom, positive_visible_width, py_div.
  rewrite largest_extent_eq. fold (max_dimension m).
  destruct (valid_bounds cb) as [b|];
    [|right; split; [reflexivity | eexists; split; reflexivity]].
  cbv zeta. fold (visible_width b).
  destruct (visible_width b >? of_int 0);
    [|right; split; [reflexivity | eexists; split; reflexivity]].
  destruct (feq (max_dimension m) (of_int 0));
    [left; split; reflexivity|].
  cbn [bind].
  destruct (feq (visible_width b / max_dimension m) (of_int 0));
    [left; split; reflexivity|].
  right. split; [reflexivity|]. eexists. split; [reflexivity | discriminate].
Qed.

Lemma zoom_without_width (m : @Mesh F) (cb : option (list F)) :
  positive_visible_width cb = false -> zoom_divides_by_zero m cb = false.
Proof.
  unfold positive_visible_width, zoom_divides_by_zero.
  destruct (valid_bounds cb) as [b|]; [|reflexivity].
  cbv zeta. fold (visible_width b). now intros ->.
Qed.

Lemma zoom_of_zero_extent (m : @Mesh F) (cb : option (list F)) :
  positive_visible_width cb = true ->
  feq (largest_extent m) (of_int 0) = true ->
  zoom_divides_by_zero m cb = true.
Proof.
  unfold positive_visible_width, zoom_divides_by_zero.
  destruct (valid_bounds cb) as [b|]; [|discriminate].
  cbv zeta. fold (visible_width b). now intros -> ->.
Qed.

Lemma is_Ok_intelligent_zoom (m : @Mesh F) (cb : option (list F)) :
  is_Ok (intelligent_zoom m cb) = negb (zoom_divides_by_zero m cb).
Proof.
  destruct (intelligent_zoom_cases m cb) as [[-> ->]|[-> (z & -> & _)]];
    reflexivity.
Qed.

(** A camera that is returned went through the four steps. *)
Lemma render_view_Ok (m : @Mesh F) (vd : option vec)
    (p : option string) (cb : option (list F)) (cam : Camera) :
  render_view m vd p cb = Ok cam ->
  exists pos0 up0 vd' diag pos fp upv z,
    check_arguments m vd p = Ok (pos0, up0, vd')
    /\ diagonal_size m = Ok diag
    /\ place_camera (camera_distance diag) vd' p = Ok (pos, fp, upv)
    /\ intelligent_zoom m cb = Ok z
    /\ cam = {| position := pos; focal_point := fp; up := upv;
                view_angle := dec 30 1;
                clipping_range := clipping diag pos fp; zoom := z |}.
Proof.
  unfold render_view, bind.
  destruct (check_arguments m vd p) as [[[pos0 up0] vd']|]; [|discriminate].
  destruct (diagonal_size m) as [diag|]; [|discriminate].
  destruct (place_camera (camera_distance diag) vd' p) as [[[pos fp] upv]|]
    eqn:Ep; [|discriminate].
  destruct (intelligent_zoom m cb) as [z|]; [|discriminate].
  intros H. exists pos0, up0, vd', diag, pos, fp, upv, z.
  repeat (split; [first [reflexivity | exact Ep]|]).
  symmetry. exact (Ok_inj H).
Qed.

(** The four steps of [render_view], once the arguments are accepted. *)
Lemma render_view_accepted (m : @Mesh F) (vd : option vec)
    (p : option string) (cb : option (list F)) :
  arguments_accepted vd p = true ->
  exists pos0 up0 vd',
    check_arguments m vd p = Ok (pos0, up0, vd')
    /\ render_view m vd p cb
       = (diagonal_size <- diagonal_size m ;;
          placed <- place_camera (camera_distance diagonal_size) vd' p ;;
          let '(camera_position, focal_point, camera_up) := placed in
          zoom_factor <- intelligent_zoom m cb ;;
          Ok {| position := camera_position;
                focal_point := focal_point;
                up := camera_up;
                view_angle := dec 30 1;
                clipping_range :=
                  clipping diagonal_size camera_position focal_point;
                zoom := zoom_factor |}).
Proof.
  rewrite <- (is_Ok_check_arguments m). unfold render_view.
  destruct (check_arguments m vd p) as [[[pos0 up0] vd']|]; [|discriminate].
  intros _. exists pos0, up0, vd'. split; reflexivity.
Qed.

(** A camera is returned exactly when the arguments are accepted, no square
    overflows and the zoom step does not divide by zero. *)
Lemma is_Ok_render_view (m : @Mesh F) (vd : option vec) (p : option string)
    (cb : option (list F)) :
  is_Ok (render_view m vd p cb)
  = (arguments_accepted vd p
     && negb (extent_overflows m || zoom_divides_by_zero m cb))%bool.
Proof.
  destruct (arguments_accepted vd p) eqn:Ea.
  - destruct (render_view_accepted m vd p cb Ea) as (pos0 & up0 & vd' & Hc & ->).
    pose proof (@place_camera_checked m vd vd' p pos0 up0
                  (camera_distance
                     (fsqrt (pow2 (x_size m) + pow2 (y_size m)
                             + pow2 (z_size m)))) Hc) as Hp.
    destruct (diagonal_size_cases m) as [[-> ->]|[-> ->]]; [reflexivity|].
    cbn [bind orb andb].
    destruct (place_camera _ vd' p) as [[[pos fp] upv]|]; [|discriminate].
    cbn [bind].
    destruct (intelligent_zoom_cases m cb) as [[-> ->]|[-> (z & -> & _)]];
      reflexivity.
  - rewrite <- (is_Ok_check_arguments m) in Ea. unfold render_view.
    now destruct (check_arguments m vd p).
Qed.

(** What [render_view] raises, case by case. *)
Lemma render_view_raises (m : @Mesh F) (vd : option vec) (p : option string)
    (cb : option (list F)) :
  (arguments_accepted vd p = false ->
   render_view m vd p cb
   = Raise match truthy p with
           | Some s => unknown_preset s
           | None => must_specify
           end)
  /\ (arguments_accepted vd p = true -> extent_overflows m = true ->
      render_view m vd p cb = Raise OverflowError)
  /\ (arguments_accepted vd p = true -> extent_overflows m = false ->
      zoom_divides_by_zero m cb = true ->
      render_view m vd p cb = Raise ZeroDivisionError).
Proof.
  split; [|split].
  - rewrite <- (is_Ok_check_arguments m). unfold render_view, check_arguments.
    destruct (truthy p) as [s|].
    + destruct (get_preset_view m s) as [[pos upv]|]; [discriminate|].
      reflexivity.
    + destruct vd; [discriminate | reflexivity].
  - intros Ea Ho.
    destruct (render_view_accepted m vd p cb Ea) as (pos0 & up0 & vd' & _ & ->).
    destruct (diagonal_size_cases m) as [[_ ->]|[E _]]; [reflexivity|].
    congruence.
  - intros Ea Ho Hz.
    destruct (render_view_accepted m vd p cb Ea) as (pos0 & up0 & vd' & Hc & ->).
    pose proof (@place_camera_checked m vd vd' p pos0 up0
                  (camera_distance
                     (fsqrt (pow2 (x_size m) + pow2 (y_size m)
                             + pow2 (z_size m)))) Hc) as Hp.
    destruct (diagonal_size_cases m) as [[E _]|[_ ->]]; [congruence|].
    cbn [bind].
    destruct (place_camera _ vd' p) as [[[pos fp] upv]|]; [|discriminate].
    cbn [bind].
    destruct (intelligent_zoom_cases m cb) as [[_ ->]|[E _]];
      [reflexivity | congruence].
Qed.

Lemma is_ValueError_render_view (m : @Mesh F) (vd : option vec)
    (p : option string) (cb : option (list F)) :
  is_ValueError (render_view m vd p cb) = negb (arguments_accepted vd p).
Proof.
  destruct (render_view_raises m vd p cb) as (H1 & H2 & H3).
  destruct (arguments_accepted vd p) eqn:Ea.
  - destruct (extent_overflows m) eqn:Eo; [now rewrite H2|].
    destruct (zoom_divides_by_zero m cb) eqn:Ez; [now rewrite H3|].
    pose proof (is_Ok_render_view m vd p cb) as H.
    rewrite Ea, Eo, Ez in H.
    now destruct (render_view m vd p cb).
  - rewrite H1 by reflexivity. now destruct (truthy p).
Qed.

(** Two names with the same lower-case form are placed alike. *)
Lemma place_camera_same_lower (k : F) (vd : option vec) (s l : string) :
  s <> ""%string -> l <> ""%string -> str_lower l = str_lower s ->
  forget_message (place_camera k vd (Some s))
  = forget_message (place_camera k vd (Some l))
  /\ (In (str_lower s) preset_names ->
      place_camera k vd (Some s) = place_camera k vd (Some l)).
Proof.
  intros Hs Hl E. unfold place_camera.
  rewrite !truthy_Some by assumption. cbv zeta. rewrite E.
  destruct mesh_center as [[c0 c1] c2].
  preset_cases (str_lower s); split; try reflexivity.
  intros Hin. exfalso. simpl in Hin.
  repeat (destruct Hin as [Hin|Hin]; [congruence|]). exact Hin.
Qed.

Lemma check_arguments_same_lower (m : @Mesh F) (vd : option vec) (s l : string) :
  s <> ""%string -> l <> ""%string -> str_lower l = str_lower s ->
  forget_message (check_arguments m vd (Some s))
  = forget_message (check_arguments m vd (Some l))
  /\ (In (str_lower s) preset_names ->
      check_arguments m vd (Some s) = check_arguments m vd (Some l)).
Proof.
  intros Hs Hl E.
  rewrite !check_arguments_preset by assumption.
  assert (Eg : get_preset_view m l = get_preset_view m s)
    by (unfold get_preset_view; now rewrite E).
  rewrite Eg. split.
  - now destruct (get_preset_view m s) as [[pos upv]|].
  - intros Hin. pose proof (@get_preset_view_known m s Hin).
    now destruct (get_preset_view m s) as [[pos upv]|].
Qed.

Lemma render_view_same_lower (m : @Mesh F) (vd : option vec) (s l : string)
    (cb : option (list F)) :
  s <> ""%string -> l <> ""%string -> str_lower l = str_lower s ->
  forget_message (render_view m vd (Some s) cb)
  = forget_message (render_view m vd (Some l) cb)
  /\ (In (str_lower s) preset_names ->
      render_view m vd (Some s) cb = render_view m vd (Some l) cb).
Proof.
  intros Hs Hl E. unfold render_view. split.
  - apply forget_message_bind;
      [apply (check_arguments_same_lower m vd Hs Hl E)|].
    intros [[pos0 up0] vd'].
    apply forget_message_bind; [reflexivity|]. intros diag.
    apply forget_message_bind;
      [apply (place_camera_same_lower _ vd' Hs Hl E) | reflexivity].
  - intros Hin.
    rewrite (proj2 (check_arguments_same_lower m vd Hs Hl E) Hin).
    apply bind_ext. intros [[pos0 up0] vd'].
    apply bind_ext. intros diag.
    now rewrite (proj2 (place_camera_same_lower _ vd' Hs Hl E) Hin).
Qed.

Lemma lower_empty (H : lower_laws SL) : str_lower ""%string = ""%string.
Proof. now rewrite (lower_on_ascii H) by reflexivity. Qed.

End Framing.

(** The unit cube seen from the top, in binary64: the camera is on the z
    axis above the origin at 1.8 times the root of 3, its up vector is
    (0,1,0), and the clipping range is positive and in order. *)
Lemma top_view_of_unit_cube :
  exists cam,
    render_view (SL := Examples.ascii_lower) Examples.cube64 None
                (Some "top"%string) None = Ok cam
    /\ position cam
       = (of_int 0, of_int 0,
          (of_int 0 + fsqrt (of_int 3) * dec 18 10)%A)
    /\ focal_point cam = Examples.fv 0 0 0
    /\ up cam = Examples.fv 0 1 0
    /\ (lt (of_int 0) (fst (clipping_range cam))
        && lt (fst (clipping_range cam)) (snd (clipping_range cam)))%bool = true.
Proof.
  eexists. split; [reflexivity|].
  repeat split; vm_compute; reflexivity.
Qed.

(** *** Preset names *)

(** C10.  Preset names are matched on their lower-case form.  A name and
    its lower-case form give the same camera, or exceptions of the same kind
    (an unknown name is quoted in the error text as it was typed, which is
    the one difference).  In particular "TOP" and "Front" are not rejected:
    they give what "top" and "front" give, which is a camera unless the
    square of an extent overflows or the zoom step divides by zero. *)
Theorem C10_preset_case_insensitive
    (F : Type) (AF : Arith F) (SL : StrLower) (m : Mesh)
    (vd : option (@vec F)) (cb : option (list F)) :
  lower_laws SL ->
  (forall s,
      forget_message (render_view m vd (Some s) cb)
      = forget_message (render_view m vd (Some (str_lower s)) cb))
  /\ (forall s,
         In (str_lower s) preset_names ->
         render_view m vd (Some s) cb
         = render_view m vd (Some (str_lower s)) cb)
  /\ (forall s,
         ~ In (str_lower s) preset_names -> s <> ""%string ->
         render_view m vd (Some s) cb = Raise (unknown_preset s)
         /\ render_view m vd (Some (str_lower s)) cb
            = Raise (unknown_preset (str_lower s)))
  /\ (forall typed name,
         In (typed, name)
            [ ("TOP"%string, "top"%string); ("Front"%string, "front"%string) ] ->
         render_view m vd (Some typed) cb = render_view m vd (Some name) cb
         /\ is_ValueError (render_view m vd (Some typed) cb) = false
         /\ is_Ok (render_view m vd (Some typed) cb)
            = negb (extent_overflows m || zoom_divides_by_zero m cb)).
Proof.
  intros HL.
  assert (Hne : forall s, In (str_lower s) preset_names -> s <> ""%string).
  { intros s Hin ->. rewrite (lower_empty HL) in Hin. simpl in Hin.
    repeat (destruct Hin as [Hin|Hin]; [discriminate|]). exact Hin. }
  assert (Hsame : forall s, s <> ""%string ->
            forget_message (render_view m vd (Some s) cb)
            = forget_message (render_view m vd (Some (str_lower s)) cb)
            /\ (In (str_lower s) preset_names ->
                render_view m vd (Some s) cb
                = render_view m vd (Some (str_lower s)) cb)).
  { intros s Hs. apply render_view_same_lower;
      [exact Hs | exact (lower_not_empty HL Hs) | exact (lower_twice HL s)]. }
  split; [|split; [|split]].
  - intros [|c s]; [now rewrite (lower_empty HL)|].
    apply Hsame. discriminate.
  - intros s Hin. exact (proj2 (Hsame s (Hne s Hin)) Hin).
  - intros s Hout Hs.
    assert (Hraise : forall t, t <> ""%string -> ~ In (str_lower t) preset_names ->
              render_view m vd (Some t) cb = Raise (unknown_preset t)).
    { intros t Ht Hn. unfold render_view.
      rewrite check_arguments_preset by exact Ht.
      now rewrite (get_preset_view_unknown m _ Hn). }
    split; [now apply Hraise|].
    apply Hraise; [exact (lower_not_empty HL Hs)|].
    now rewrite (lower_twice HL).
  - intros typed name Hin.
    assert (E : str_lower typed = name /\ In name preset_names
                /\ typed <> ""%string).
    { simpl in Hin. destruct Hin as [Hin|[Hin|[]]]; injection Hin as <- <-;
        (split; [now rewrite (lower_on_ascii HL) by reflexivity|]);
        (split; [simpl; tauto | discriminate]). }
    destruct E as (E & Hn & Ht).
    assert (Hacc : arguments_accepted vd (Some typed) = true).
    { unfold arguments_accepted. rewrite truthy_Some by exact Ht.
      apply existsb_preset_names. now rewrite E. }
    split; [|split].
    + rewrite <- E. apply Hsame; [exact Ht | now rewrite E].
    + now rewrite is_ValueError_render_view, Hacc.
    + now rewrite is_Ok_render_view, Hacc.
Qed.

Lemma C10_preset_case_insensitive_witness :
  render_view (SL := Examples.ascii_lower) Examples.box None
              (Some "TOP"%string) None
  = render_view (SL := Examples.ascii_lower) Examples.box None
                (Some "top"%string) None
  /\ is_Ok (render_view (SL := Examples.ascii_lower) Examples.box None
                        (Some "TOP"%string) None) = true.
Proof.
  destruct (proj2 (proj2 (proj2
              (@C10_preset_case_insensitive PrimFloat.float _
                 Examples.ascii_lower Examples.box None None ascii_lower_laws)))
              "TOP"%string "top"%string (or_introl eq_refl))
    as (Hsame & _ & Hok).
  split; [exact Hsame|].
  rewrite Hok. vm_compute. reflexivity.
Defined.

(** "TOP" and "Front" on the box: accepted, with the camera of "top" and
    "front". *)
Lemma upper_case_presets_accepted :
  is_Ok (render_view (SL := Examples.ascii_lower) Examples.box None
                     (Some "TOP"%string) None) = true
  /\ render_view (SL := Examples.ascii_lower) Examples.box None
                 (Some "TOP"%string) None
     = render_view (SL := Examples.ascii_lower) Examples.box None
                   (Some "top"%string) None
  /\ render_view (SL := Examples.ascii_lower) Examples.box None
                 (Some "Front"%string) None
     = render_view (SL := Examples.ascii_lower) Examples.box None
                   (Some "front"%string) None.
Proof. repeat split; vm_compute; reflexivity. Qed.

(** C8, counterexample.  "TOP" is not one of the six names, and yet the call
    returns a camera. *)
Lemma C8_upper_case_name_accepted :
  ~ In "TOP"%string preset_names
  /\ is_ValueError (render_view (SL := Examples.ascii_lower) Examples.box None
                                (Some "TOP"%string) None) = false
  /\ is_Ok (render_view (SL := Examples.ascii_lower) Examples.box None
                        (Some "TOP"%string) None) = true.
Proof.
  split; [|split; vm_compute; reflexivity].
  simpl. intros H. repeat (destruct H as [H|H]; [discriminate|]). exact H.
Qed.

(** C8, as amended.  The names are matched on their lower-case form, as
    [str.lower] gives it.  A name whose lower-case form is not one of the six
    raises a [ValueError] that quotes it (the empty name: the error for a
    missing argument), for every mesh and whatever the renderer reports.  A
    name whose lower-case form is one of the six raises no [ValueError], and a
    camera is returned for it unless the square of an extent overflows or the
    zoom step divides by zero, which does not depend on the name.  So a camera
    is returned for no other names. *)
Theorem C8_preset_names
    (F : Type) (AF : Arith F) (SL : StrLower) (m : @Mesh F) (s : string)
    (cb : option (list F)) :
  (~ In (str_lower s) preset_names ->
   render_view m None (Some s) cb
   = Raise (if String.eqb s "" then must_specify else unknown_preset s))
  /\ (In (str_lower s) preset_names -> s <> ""%string ->
      is_ValueError (render_view m None (Some s) cb) = false
      /\ is_Ok (render_view m None (Some s) cb)
         = negb (extent_overflows m || zoom_divides_by_zero m cb))
  /\ (is_Ok (render_view m None (Some s) cb) = true ->
      In (str_lower s) preset_names).
Proof.
  assert (H1 : ~ In (str_lower s) preset_names ->
               render_view m None (Some s) cb
               = Raise (if String.eqb s "" then must_specify
                        else unknown_preset s)).
  { intros H. destruct s as [|c s]; [reflexivity|].
    unfold render_view.
    rewrite check_arguments_preset by discriminate.
    now rewrite (get_preset_view_unknown m _ H). }
  split; [exact H1|split].
  - intros H Hs.
    assert (Hacc : arguments_accepted (None : option (@vec F)) (Some s) = true).
    { unfold arguments_accepted. rewrite truthy_Some by exact Hs.
      now apply existsb_preset_names. }
    split.
    + now rewrite is_ValueError_render_view, Hacc.
    + now rewrite is_Ok_render_view, Hacc.
  - intros Hok.
    destruct (in_dec string_dec (str_lower s) preset_names) as [H|H];
      [exact H|].
    rewrite (H1 H) in Hok. discriminate.
Qed.

Lemma C8_preset_names_witness :
  render_view (SL := Examples.ascii_lower) Examples.box None
              (Some "Top view"%string) None
  = Raise (unknown_preset "Top view")
  /\ is_Ok (render_view (SL := Examples.ascii_lower) Examples.box None
                        (Some "Back"%string) None) = true.
Proof.
  split.
  - apply (proj1 (@C8_preset_names PrimFloat.float _ Examples.ascii_lower
                    Examples.box "Top view"%string None)).
    simpl. intros H. repeat (destruct H as [H|H]; [discriminate|]). exact H.
  - rewrite (proj2 (proj1 (proj2
               (@C8_preset_names PrimFloat.float _ Examples.ascii_lower
                  Examples.box "Back"%string None))
               (or_intror (or_introl eq_refl))
               ltac:(discriminate))).
    vm_compute. reflexivity.
Defined.

(** *** Degenerate meshes *)

(** C9, counterexample.  The collapsed triangle has largest extent zero, and
    [render_view] returns a camera for it instead of raising. *)
Lemma C9_zero_extent_accepted :
  feq (largest_extent Examples.collapsed_triangle) (of_int 0) = true
  /\ is_ValueError (render_view (SL := Examples.ascii_lower)
                      Examples.collapsed_triangle
                      (Some (Examples.fv 0 0 1)) None
                      (Some Examples.collapsed_bounds)) = false
  /\ is_Ok (render_view (SL := Examples.ascii_lower)
               Examples.collapsed_triangle
               (Some (Examples.fv 0 0 1)) None
               (Some Examples.collapsed_bounds)) = true.
Proof. repeat split; vm_compute; reflexivity. Qed.

(** C9, as amended.  A largest extent of zero is no input error: with
    arguments that are accepted, [render_view] raises no [ValueError]; when no
    square overflows it returns a camera, without zoom, unless the renderer
    reports a positive visible width, in which case the division of the zoom
    step raises [ZeroDivisionError].  On a mesh without points
    [find_best_front_views] does fail with a [ValueError]: the fit of the
    principal axes is its first step, and the [ValueError] with which the fit
    rejects an empty point set is passed on as it is. *)
Theorem C9_no_mesh_validation
    (F : Type) (AF : Arith F) (SL : StrLower)
    (PCA_fit : list (@vec F) -> result (@vec F * @vec F * @vec F))
    (m : Mesh) (vd : option (@vec F)) (preset : option string)
    (cb : option (list F)) :
  (feq (largest_extent m) (of_int 0) = true ->
   arguments_accepted vd preset = true ->
   is_ValueError (render_view m vd preset cb) = false
   /\ (extent_overflows m = false ->
       if positive_visible_width cb
       then render_view m vd preset cb = Raise ZeroDivisionError
       else exists cam, render_view m vd preset cb = Ok cam /\ zoom cam = None))
  /\ (points m = [] ->
      forall msg, PCA_fit [] = Raise (ValueError msg) ->
      forall n_views,
        find_best_front_views PCA_fit m n_views = Raise (ValueError msg)).
Proof.
  split.
  - intros Hz Ha. split; [now rewrite is_ValueError_render_view, Ha|].
    intros Ho.
    destruct (positive_visible_width cb) eqn:Ew.
    + apply render_view_raises; [exact Ha | exact Ho|].
      now apply zoom_of_zero_extent.
    + pose proof (zoom_without_width m cb Ew) as Ez.
      pose proof (is_Ok_render_view m vd preset cb) as Hok.
      rewrite Ha, Ho, Ez in Hok.
      destruct (render_view m vd preset cb) as [cam|] eqn:Er; [|discriminate].
      exists cam. split; [reflexivity|].
      destruct (render_view_Ok _ _ _ _ Er)
        as (pos0 & up0 & vd' & diag & pos & fp & upv & z & _ & _ & _ & Hzoom & ->).
      cbn [zoom].
      destruct (intelligent_zoom_cases m cb) as [[_ E]|[_ (z' & E & Hnone)]];
        [congruence|].
      rewrite E in Hzoom. injection Hzoom as <-. now apply Hnone.
  - intros Hp msg Hv n. unfold find_best_front_views.
    now rewrite Hp, Hv.
Qed.

Lemma C9_no_mesh_validation_witness :
  (exists cam,
      render_view (SL := Examples.ascii_lower) Examples.collapsed_triangle
                  (Some (Examples.fv 0 0 1)) None
                  (Some Examples.collapsed_bounds) = Ok cam
      /\ zoom cam = None)
  /\ find_best_front_views Examples.axes_fit Examples.empty_mesh 3
     = Raise Examples.no_samples.
Proof.
  pose proof (@C9_no_mesh_validation PrimFloat.float _ Examples.ascii_lower
                Examples.axes_fit) as H.
  split.
  - pose proof (proj2 (proj1 (H Examples.collapsed_triangle
                               (Some (Examples.fv 0 0 1)) None
                               (Some Examples.collapsed_bounds))
                        eq_refl eq_refl) eq_refl) as H1.
    change (positive_visible_width (Some Examples.collapsed_bounds))
      with false in H1.
    exact H1.
  - exact (proj2 (H Examples.empty_mesh None None None)
             eq_refl _ eq_refl 3%Z).
Defined.


(** * The framing in exact arithmetic *)

Local Open Scope R_scope.

(** Unfolds the arithmetic interface at the reals. *)
Ltac to_R :=
  cbn [of_int add sub mul div neg fabs fsqrt lt feq pow2 is_inf dot3 row_dot3
       R_arith] in *.

Lemma Rltb_true (x y : R) : Rltb x y = true <-> x < y.
Proof. unfold Rltb. destruct (Rlt_dec x y); split; (discriminate || tauto). Qed.

Lemma Rltb_false (x y : R) : Rltb x y = false <-> y <= x.
Proof.
  unfold Rltb. destruct (Rlt_dec x y); split; intros; try discriminate;
    try reflexivity; lra.
Qed.

Lemma Reqb_false (x y : R) : x <> y -> Reqb x y = false.
Proof. unfold Reqb. intros H. destruct (Req_dec_T x y); [contradiction | reflexivity]. Qed.

Lemma py_max_Rmax (a b : R) : py_max a b = Rmax a b.
Proof.
  unfold py_max, Rmax. to_R. unfold Rltb.
  destruct (Rlt_dec a b), (Rle_dec a b); try reflexivity; lra.
Qed.

Lemma py_min_Rmin (a b : R) : py_min a b = Rmin a b.
Proof.
  unfold py_min, Rmin. to_R. unfold Rltb.
  destruct (Rlt_dec b a), (Rle_dec a b); try reflexivity; lra.
Qed.

Lemma py_div_R (a b : R) : b <> 0 -> py_div a b = Ok (a / b).
Proof. intros H. unfold py_div. to_R. now rewrite Reqb_false. Qed.

Lemma dec_R (n d : Z) : dec n d = IZR n / IZR d.
Proof. reflexivity. Qed.

(** No square overflows in the reals, and line 258 gives the diagonal of
    the bounding box. *)
Lemma extent_overflows_R (m : @Mesh R) : extent_overflows m = false.
Proof.
  unfold extent_overflows, square_overflows.
  now destruct (bounds m) as [[[[[x0 x1] y0] y1] z0] z1].
Qed.

Lemma diagonal_size_R (m : @Mesh R) : diagonal_size m = Ok (box_diagonal m).
Proof.
  destruct (diagonal_size_cases m) as [[E _]|[_ ->]]; [|reflexivity].
  rewrite extent_overflows_R in E. discriminate.
Qed.

Lemma box_diagonal_bounds (m : @Mesh R) (x0 x1 y0 y1 z0 z1 : R) :
  bounds m = (x0, x1, y0, y1, z0, z1) ->
  box_diagonal m
  = sqrt ((x1 - x0) * (x1 - x0) + (y1 - y0) * (y1 - y0)
          + (z1 - z0) * (z1 - z0)).
Proof.
  intros H. unfold box_diagonal, x_size, y_size, z_size. now rewrite H.
Qed.

Lemma box_diagonal_nonneg (m : @Mesh R) : 0 <= box_diagonal m.
Proof. unfold box_diagonal. apply sqrt_pos. Qed.

Lemma camera_distance_R (diag : R) : camera_distance diag = 1.8 * diag.
Proof. unfold camera_distance. rewrite dec_R. to_R. lra. Qed.

Lemma norm_components (a b c : R) :
  norm ((a, b, c) : vec) = sqrt (a * a + b * b + c * c).
Proof. reflexivity. Qed.

Lemma norm_zero_vector (a b c : R) :
  a = 0 -> b = 0 -> c = 0 -> norm (a, b, c) = 0.
Proof.
  intros -> -> ->. rewrite norm_components.
  replace (0 * 0 + 0 * 0 + 0 * 0) with 0 by ring. apply sqrt_0.
Qed.

(** With a zero camera distance the camera sits on its focal point. *)
Lemma place_camera_at_focus (SL : StrLower) (k : R) (vd : option vec)
    (p : option string) (pos fp upv : vec) :
  place_camera k vd p = Ok (pos, fp, upv) ->
  k = 0 ->
  norm (vsub pos fp) = 0.
Proof.
  unfold place_camera. intros H ->. cbv zeta in H.
  unfold mesh_center, ivec in H.
  destruct (truthy p) as [s|].
  - preset_cases (str_lower s); try discriminate;
      injection H as <- <- <-; unfold vsub; to_R;
      apply norm_zero_vector; ring.
  - destruct vd as [[[d0 d1] d2]|]; [|discriminate].
    injection H as <- <- <-. unfold vsub, vscale, vdiv. to_R.
    apply norm_zero_vector; ring.
Qed.

(** C7.  The clipping range of a returned camera is
    [near = max(distance - diag, 0.1 * distance)], [far = distance + diag],
    with [distance] the length of the segment from the camera to its focal
    point and [diag] the length of the diagonal of the bounding box; and when
    [distance > 0], [0 < near < far]. *)
Theorem C7_clipping_range
    (SL : StrLower) (m : @Mesh R) (vd : option vec) (preset : option string)
    (cb : option (list R)) (cam : Camera)
    (x0 x1 y0 y1 z0 z1 p0 p1 p2 f0 f1 f2 : R) :
  render_view m vd preset cb = Ok cam ->
  bounds m = (x0, x1, y0, y1, z0, z1) ->
  position cam = (p0, p1, p2) ->
  focal_point cam = (f0, f1, f2) ->
  let distance :=
    sqrt ((p0 - f0) * (p0 - f0) + (p1 - f1) * (p1 - f1)
          + (p2 - f2) * (p2 - f2)) in
  let diag :=
    sqrt ((x1 - x0) * (x1 - x0) + (y1 - y0) * (y1 - y0)
          + (z1 - z0) * (z1 - z0)) in
  clipping_range cam = (Rmax (distance - diag) (0.1 * distance), distance + diag)
  /\ (0 < distance ->
      0 < fst (clipping_range cam)
      /\ fst (clipping_range cam) < snd (clipping_range cam)).
Proof.
  intros H Hb Hpos Hfp distance diag.
  destruct (@render_view_Ok R _ SL m vd preset cb cam H)
    as (pos0 & up0 & vd' & dg & pos & fp & upv & z & _ & Hd & Hp & _ & ->).
  cbn [position focal_point clipping_range] in *. subst pos fp.
  rewrite diagonal_size_R, (box_diagonal_bounds m Hb) in Hd.
  fold diag in Hd. injection Hd as <-.
  assert (Edist : norm (vsub (p0, p1, p2) (f0, f1, f2)) = distance)
    by reflexivity.
  assert (E : clipping diag (p0, p1, p2) (f0, f1, f2)
              = (Rmax (distance - diag) (0.1 * distance), distance + diag)).
  { unfold clipping. rewrite Edist, py_max_Rmax. unfold dec. to_R.
    f_equal. f_equal. lra. }
  split; [exact E|].
  rewrite E. cbn [fst snd]. intros Hdist.
  assert (Hdiag : 0 < diag).
  { destruct (sqrt_pos ((x1 - x0) * (x1 - x0) + (y1 - y0) * (y1 - y0)
                        + (z1 - z0) * (z1 - z0))) as [Hn|Hn]; [exact Hn|].
    exfalso. fold diag in Hn.
    assert (H0 : camera_distance diag = 0)
      by (rewrite camera_distance_R, <- Hn; ring).
    pose proof (@place_camera_at_focus SL _ vd' preset _ _ upv Hp H0) as Hz.
    rewrite Edist in Hz. lra. }
  unfold Rmax. destruct (Rle_dec (distance - diag) (0.1 * distance)); lra.
Qed.

(** *** Zoom *)

Lemma clamp_in_range (z : R) : 0.5 <= Rmax 0.5 (Rmin 3 z) <= 3.
Proof.
  unfold Rmax, Rmin.
  destruct (Rle_dec 3 z); destruct (Rle_dec 0.5 _); lra.
Qed.

(** The zoom step in exact arithmetic, for a mesh of non-zero extent. *)
Lemma intelligent_zoom_R (m : @Mesh R) (cb : option (list R)) (b : list R) :
  valid_bounds cb = Some b ->
  0 < visible_width b ->
  max_dimension m <> 0 ->
  intelligent_zoom m cb
  = Ok (Some (Rmax 0.5 (Rmin 3 (0.875 / (visible_width b / max_dimension m))))).
Proof.
  intros Hb Hw Hm. unfold intelligent_zoom. rewrite Hb.
  fold (max_dimension m).
  replace (lt (of_int 0) (visible_width b)) with true
    by (symmetry; apply Rltb_true; exact Hw).
  rewrite py_div_R by exact Hm. cbn [bind].
  rewrite py_div_R.
  - cbn [bind]. rewrite py_max_Rmax, py_min_Rmin, !dec_R.
    replace (5 / 10) with 0.5 by lra.
    replace (3 / 1) with 3 by lra.
    replace (875 / 1000) with 0.875 by lra.
    reflexivity.
  - intros H0. apply Rmult_integral in H0. destruct H0 as [H0|H0]; [lra|].
    revert H0. apply Rinv_neq_0_compat. exact Hm.
Qed.

Lemma Reqb_false_neq (x y : R) : Reqb x y = false -> x <> y.
Proof. unfold Reqb. destruct (Req_dec_T x y); [discriminate | tauto]. Qed.

(** A zoom step that returns has divided by a non-zero extent. *)
Lemma intelligent_zoom_Ok (m : @Mesh R) (cb : option (list R)) (b : list R)
    (z : option R) :
  valid_bounds cb = Some b ->
  0 < visible_width b ->
  intelligent_zoom m cb = Ok z ->
  max_dimension m <> 0.
Proof.
  intros Hb Hw. unfold intelligent_zoom. rewrite Hb.
  fold (max_dimension m).
  replace (lt (of_int 0) (visible_width b)) with true
    by (symmetry; apply Rltb_true; exact Hw).
  unfold py_div at 1. to_R.
  destruct (Reqb (max_dimension m) 0) eqn:E; [discriminate|].
  intros _. now apply Reqb_false_neq.
Qed.

(** In the reals a camera is returned when the arguments are accepted and
    the zoom step returns. *)
Lemma render_view_returns_R (SL : StrLower) (m : @Mesh R) (vd : option vec)
    (preset : option string) (cb : option (list R)) :
  is_Ok (check_arguments m vd preset) = true ->
  is_Ok (intelligent_zoom m cb) = true ->
  exists cam, render_view m vd preset cb = Ok cam.
Proof.
  intros Hc Hz.
  assert (Hok : is_Ok (render_view m vd preset cb) = true).
  { rewrite is_Ok_render_view, <- (is_Ok_check_arguments m), Hc,
      extent_overflows_R.
    cbn [orb andb]. now rewrite <- is_Ok_intelligent_zoom. }
  destruct (render_view m vd preset cb) as [cam|]; [|discriminate].
  now exists cam.
Qed.

(** C6.  When the renderer reports valid visible bounds with a positive
    visible width (the larger of the visible x and y spans), the zoom of every
    camera returned is [0.875 / (visible_width / max_size)] clamped to
    [0.5, 3.0], [max_size] being the largest extent of the bounding box; a
    camera is returned when the arguments are accepted and [max_size] is not
    zero; the zoom lies in [0.5, 3.0].  Without valid visible bounds the
    camera is returned without zoom. *)
Theorem C6_zoom_factor
    (SL : StrLower) (m : @Mesh R) (vd : option vec) (preset : option string)
    (cb : option (list R)) :
  (forall b,
      valid_bounds cb = Some b ->
      0 < visible_width b ->
      let zoom_factor :=
        Rmax 0.5 (Rmin 3 (0.875 / (visible_width b / max_dimension m))) in
      (forall cam, render_view m vd preset cb = Ok cam ->
                   zoom cam = Some zoom_factor)
      /\ (is_Ok (check_arguments m vd preset) = true ->
          max_dimension m <> 0 ->
          exists cam, render_view m vd preset cb = Ok cam)
      /\ 0.5 <= zoom_factor <= 3
      /\ visible_width b
         = Rmax (nth 1 b 0 - nth 0 b 0) (nth 3 b 0 - nth 2 b 0)
      /\ max_dimension m = Rmax (Rmax (x_size m) (y_size m)) (z_size m))
  /\ (valid_bounds cb = None ->
      (forall cam, render_view m vd preset cb = Ok cam -> zoom cam = None)
      /\ (is_Ok (check_arguments m vd preset) = true ->
          exists cam, render_view m vd preset cb = Ok cam)).
Proof.
  split.
  - intros b Hb Hw zoom_factor.
    split; [|split; [|split; [apply clamp_in_range | split]]].
    + intros cam H.
      destruct (@render_view_Ok R _ SL m vd preset cb cam H)
        as (pos0 & up0 & vd' & dg & pos & fp & upv & z & _ & _ & _ & Hz & ->).
      pose proof (intelligent_zoom_Ok m cb Hb Hw Hz) as Hm.
      rewrite (intelligent_zoom_R m cb Hb Hw Hm) in Hz.
      cbn [zoom]. symmetry. exact (Ok_inj Hz).
    + intros Hc Hm. apply render_view_returns_R; [exact Hc|].
      now rewrite (intelligent_zoom_R m cb Hb Hw Hm).
    + unfold visible_width. now rewrite py_max_Rmax.
    + unfold max_dimension, py_max3. now rewrite !py_max_Rmax.
  - intros Hb. split.
    + intros cam H.
      destruct (@render_view_Ok R _ SL m vd preset cb cam H)
        as (pos0 & up0 & vd' & dg & pos & fp & upv & z & _ & _ & _ & Hz & ->).
      unfold intelligent_zoom in Hz. rewrite Hb in Hz.
      cbn [zoom]. symmetry. exact (Ok_inj Hz).
    + intros Hc. apply render_view_returns_R; [exact Hc|].
      unfold intelligent_zoom. now rewrite Hb.
Qed.

Lemma unit_cube_visible_width : visible_width Examples.unit_cube_bounds = 1.
Proof.
  unfold visible_width, Examples.unit_cube_bounds. rewrite py_max_Rmax.
  cbn [nth]. rewrite !dec_R. to_R.
  unfold Rmax. destruct (Rle_dec _ _); lra.
Qed.

Lemma unit_cube_max_dimension : max_dimension Examples.unit_cube = 1.
Proof.
  unfold max_dimension, py_max3. rewrite !py_max_Rmax.
  unfold x_size, y_size, z_size, Examples.unit_cube. cbn [bounds].
  rewrite !dec_R. to_R.
  unfold Rmax. repeat destruct (Rle_dec _ _); lra.
Qed.

Lemma C6_zoom_factor_witness :
  exists cam,
    render_view (SL := Examples.ascii_lower) Examples.unit_cube
                (Some (ivec 0 0 1)) None
                (Some Examples.unit_cube_bounds) = Ok cam
    /\ zoom cam
       = Some (Rmax 0.5 (Rmin 3 (0.875 / (visible_width Examples.unit_cube_bounds
                                          / max_dimension Examples.unit_cube)))).
Proof.
  assert (Hw : 0 < visible_width Examples.unit_cube_bounds)
    by (rewrite unit_cube_visible_width; lra).
  assert (Hm : max_dimension Examples.unit_cube <> 0)
    by (rewrite unit_cube_max_dimension; lra).
  destruct (proj1 (@C6_zoom_factor Examples.ascii_lower Examples.unit_cube
                     (Some (ivec 0 0 1)) None
                     (Some Examples.unit_cube_bounds))
                  Examples.unit_cube_bounds eq_refl Hw)
    as (Hzoom & Hex & _).
  destruct (Hex eq_refl Hm) as [cam Hcam].
  exists cam. split; [exact Hcam | exact (Hzoom cam Hcam)].
Defined.

(** *** Camera placement *)

Lemma norm_unit_normalize (d : @vec R) : norm d = 1 -> vdiv d (norm d) = d.
Proof.
  intros ->. destruct d as [[d0 d1] d2]. unfold vdiv. to_R.
  f_equal; [f_equal|]; field.
Qed.

Lemma norm_z_axis : norm (ivec 0 0 1 : @vec R) = 1.
Proof.
  unfold ivec. rewrite norm_components. to_R.
  replace (0 * 0 + 0 * 0 + 1 * 1) with 1 by ring. apply sqrt_1.
Qed.

(** C5.  With [diag] the length of the diagonal of the bounding box: for a
    direction [d] of length 1 the camera is at [-d * (1.8 * diag)], looks at
    the origin (the centre of the mesh) with view angle 30 and up vector
    (0,0,1); for each of the six presets it is at the same distance
    [1.8 * diag] along the preset's axis, with up vector (0,1,0) for top and
    bottom and (0,0,1) for the others. *)
Theorem C5_camera_placement
    (SL : StrLower) (m : @Mesh R) (cb : option (list R))
    (x0 x1 y0 y1 z0 z1 : R) :
  bounds m = (x0, x1, y0, y1, z0, z1) ->
  let diag :=
    sqrt ((x1 - x0) * (x1 - x0) + (y1 - y0) * (y1 - y0)
          + (z1 - z0) * (z1 - z0)) in
  (forall d0 d1 d2 : R,
      d0 * d0 + d1 * d1 + d2 * d2 = 1 ->
      let pos :=
        (- d0 * (1.8 * diag), - d1 * (1.8 * diag), - d2 * (1.8 * diag)) in
      render_view m (Some (d0, d1, d2)) None cb
      = (z <- intelligent_zoom m cb ;;
         Ok {| position := pos;
               focal_point := (0, 0, 0);
               up := (0, 0, 1);
               view_angle := 30;
               clipping_range := clipping diag pos (0, 0, 0);
               zoom := z |}))
  /\ (forall (vd : option vec) (s name : string) (a0 a1 a2 : Z)
             (upv : Z * Z * Z),
         In (name, ((a0, a1, a2), upv)) preset_table ->
         str_lower s = name ->
         s <> ""%string ->
         let pos :=
           (IZR a0 * (1.8 * diag), IZR a1 * (1.8 * diag),
            IZR a2 * (1.8 * diag)) in
         render_view m vd (Some s) cb
         = (z <- intelligent_zoom m cb ;;
            Ok {| position := pos;
                  focal_point := (0, 0, 0);
                  up := zvec upv;
                  view_angle := 30;
                  clipping_range := clipping diag pos (0, 0, 0);
                  zoom := z |})).
Proof.
  intros Hb diag.
  assert (Ediag : diagonal_size m = Ok diag)
    by (rewrite diagonal_size_R, (box_diagonal_bounds m Hb); reflexivity).
  assert (H30 : dec 30 1 = 30) by (rewrite dec_R; lra).
  split.
  - intros d0 d1 d2 Hd pos.
    assert (Hn : norm ((d0, d1, d2) : vec) = 1)
      by (rewrite norm_components, Hd; apply sqrt_1).
    unfold render_view, check_arguments. cbn [truthy bind].
    rewrite (norm_unit_normalize _ Hn), Ediag. cbn [bind].
    unfold place_camera. cbn [truthy].
    rewrite (norm_unit_normalize _ Hn), H30.
    unfold mesh_center, ivec. cbn [bind].
    replace (vsub (IZR 0, IZR 0, IZR 0)
                  (vscale (d0, d1, d2) (camera_distance diag))) with pos.
    + reflexivity.
    + unfold pos, vsub, vscale. rewrite camera_distance_R. to_R.
      f_equal; [f_equal|]; lra.
  - intros vd s name a0 a1 a2 upv Hin Hs Hne pos.
    unfold render_view.
    rewrite check_arguments_preset by exact Hne.
    unfold get_preset_view, place_camera.
    rewrite truthy_Some by exact Hne. cbv zeta. rewrite Hs, H30.
    unfold pos, mesh_center, ivec.
    simpl in Hin.
    repeat (destruct Hin as [Hin|Hin];
      [injection Hin as <- <- <- <- <-;
       cbn [find fst snd String.eqb Ascii.eqb Bool.eqb option_map bind zvec
            ivec];
       rewrite Ediag; cbn [bind]; rewrite camera_distance_R; to_R;
       match goal with
       | |- bind _ (fun z => Ok {| position := ?p; focal_point := _; up := _;
                                   view_angle := _; clipping_range := _;
                                   zoom := _ |})
            = bind _ (fun z' => Ok {| position := ?q; focal_point := _; up := _;
                                    view_angle := _; clipping_range := _;
                                    zoom := _ |}) =>
           replace p with q by (f_equal; [f_equal|]; lra)
       end;
       reflexivity|]).
    destruct Hin.
Qed.

Lemma C5_camera_placement_witness :
  render_view (SL := Examples.ascii_lower) Examples.unit_cube
              (Some (0, 0, 1)) None None
  = (z <- intelligent_zoom Examples.unit_cube None ;;
     Ok {| position :=
             (- 0 * (1.8 * sqrt ((dec 1 2 - dec (-1) 2) * (dec 1 2 - dec (-1) 2)
                                 + (dec 1 2 - dec (-1) 2) * (dec 1 2 - dec (-1) 2)
                                 + (dec 1 2 - dec (-1) 2) * (dec 1 2 - dec (-1) 2))),
              - 0 * (1.8 * sqrt ((dec 1 2 - dec (-1) 2) * (dec 1 2 - dec (-1) 2)
                                 + (dec 1 2 - dec (-1) 2) * (dec 1 2 - dec (-1) 2)
                                 + (dec 1 2 - dec (-1) 2) * (dec 1 2 - dec (-1) 2))),
              - 1 * (1.8 * sqrt ((dec 1 2 - dec (-1) 2) * (dec 1 2 - dec (-1) 2)
                                 + (dec 1 2 - dec (-1) 2) * (dec 1 2 - dec (-1) 2)
                                 + (dec 1 2 - dec (-1) 2) * (dec 1 2 - dec (-1) 2))));
           focal_point := (0, 0, 0);
           up := (0, 0, 1);
           view_angle := 30;
           clipping_range :=
             clipping
               (sqrt ((dec 1 2 - dec (-1) 2) * (dec 1 2 - dec (-1) 2)
                      + (dec 1 2 - dec (-1) 2) * (dec 1 2 - dec (-1) 2)
                      + (dec 1 2 - dec (-1) 2) * (dec 1 2 - dec (-1) 2)))
               (- 0 * (1.8 * sqrt ((dec 1 2 - dec (-1) 2) * (dec 1 2 - dec (-1) 2)
                                   + (dec 1 2 - dec (-1) 2) * (dec 1 2 - dec (-1) 2)
                                   + (dec 1 2 - dec (-1) 2) * (dec 1 2 - dec (-1) 2))),
                - 0 * (1.8 * sqrt ((dec 1 2 - dec (-1) 2) * (dec 1 2 - dec (-1) 2)
                                   + (dec 1 2 - dec (-1) 2) * (dec 1 2 - dec (-1) 2)
                                   + (dec 1 2 - dec (-1) 2) * (dec 1 2 - dec (-1) 2))),
                - 1 * (1.8 * sqrt ((dec 1 2 - dec (-1) 2) * (dec 1 2 - dec (-1) 2)
                                   + (dec 1 2 - dec (-1) 2) * (dec 1 2 - dec (-1) 2)
                                   + (dec 1 2 - dec (-1) 2) * (dec 1 2 - dec (-1) 2))))
               (0, 0, 0);
           zoom := z |}).
Proof.
  apply (proj1 (@C5_camera_placement Examples.ascii_lower Examples.unit_cube
                  None _ _ _ _ _ _ eq_refl) 0 0 1).
  ring.
Defined.


(** * The ranking in exact arithmetic *)

Section Picking.

Context {F : Type} {AF : Arith F}.

Lemma subseq_nil_l (A : Type) (l : list A) : subseq [] l.
Proof. induction l; [apply subseq_nil | now apply subseq_skip]. Qed.

Lemma subseq_In (A : Type) (s l : list A) (x : A) :
  subseq s l -> In x s -> In x l.
Proof.
  induction 1 as [|y s l _ IH|y s l _ IH]; simpl; [tauto | tauto |].
  intros [->|H]; [now left | right; now apply IH].
Qed.

(** The loop appends, to what it holds, entries picked in order from the
    scored list. *)
Lemma select_views_subseq (n_views : Z) (rest unique_views : list (@ScoredView F)) :
  exists picked,
    select_views n_views unique_views rest = (unique_views ++ picked)%list
    /\ subseq picked rest.
Proof.
  revert unique_views.
  induction rest as [|v rest IH]; intros u; simpl.
  - exists []. split; [now rewrite app_nil_r | constructor].
  - destruct (is_unique (dir_of v) u).
    + destruct (Z.of_nat (List.length (u ++ [v])) >=? n_views)%Z.
      * exists [v]. split; [reflexivity|]. apply subseq_take, subseq_nil_l.
      * destruct (IH (u ++ [v])%list) as (p & -> & Hp).
        exists (v :: p). split; [now rewrite <- app_assoc|].
        now apply subseq_take.
    + destruct (Z.of_nat (List.length u) >=? n_views)%Z.
      * exists []. split; [now rewrite app_nil_r | apply subseq_nil_l].
      * destruct (IH u) as (p & -> & Hp).
        exists p. split; [reflexivity | now apply subseq_skip].
Qed.

Lemma insert_desc_Permutation (v : @ScoredView F) (l : list ScoredView) :
  Permutation (insert_desc v l) (v :: l).
Proof.
  induction l as [|w l IH]; simpl; [reflexivity|].
  destruct (lt (score_of v) (score_of w)); [|reflexivity].
  rewrite IH. apply perm_swap.
Qed.

Lemma sort_desc_Permutation (l : list (@ScoredView F)) :
  Permutation (sort_desc l) l.
Proof.
  induction l as [|v l IH]; simpl; [reflexivity|].
  rewrite insert_desc_Permutation. now constructor.
Qed.

End Picking.

Lemma StronglySorted_subseq (A : Type) (R : A -> A -> Prop) (s l : list A) :
  subseq s l -> StronglySorted R l -> StronglySorted R s.
Proof.
  induction 1 as [|y s l Hs IH|y s l Hs IH]; intros Hl.
  - constructor.
  - apply IH. now inversion Hl.
  - inversion Hl as [|? ? Hl' Hy]; subst. constructor; [now apply IH|].
    rewrite Forall_forall in *. intros x Hx. apply Hy.
    eapply subseq_In; eauto.
Qed.

Lemma insert_desc_sorted (v : @ScoredView R) (l : list ScoredView) :
  StronglySorted descending l -> StronglySorted descending (insert_desc v l).
Proof.
  induction 1 as [|w l Hl IH Hw]; simpl.
  - repeat constructor.
  - to_R. destruct (Rltb (score_of v) (score_of w)) eqn:E.
    + apply Rltb_true in E. constructor; [exact IH|].
      rewrite Forall_forall in *. intros x Hx.
      apply (Permutation_in _ (insert_desc_Permutation v l)) in Hx.
      destruct Hx as [<-|Hx]; [unfold descending; lra | now apply Hw].
    + apply Rltb_false in E. constructor; [now constructor|].
      constructor; [exact E|].
      rewrite Forall_forall in *. intros x Hx.
      specialize (Hw x Hx). unfold descending in *. lra.
Qed.

Lemma sort_desc_sorted (l : list (@ScoredView R)) :
  StronglySorted descending (sort_desc l).
Proof.
  induction l as [|v l IH]; simpl; [constructor | now apply insert_desc_sorted].
Qed.

(** Stability: an entry is only moved past entries of strictly greater
    score. *)
Lemma insert_desc_with_score (k : R) (v : @ScoredView R) (l : list ScoredView) :
  with_score k (insert_desc v l) = with_score k (v :: l).
Proof.
  induction l as [|w l IH]; [reflexivity|].
  cbn [insert_desc]. to_R.
  destruct (Rltb (score_of v) (score_of w)) eqn:E; [|reflexivity].
  apply Rltb_true in E.
  unfold with_score in *. cbn [filter] in *. rewrite IH.
  unfold Reqb.
  destruct (Req_dec_T (score_of w) k), (Req_dec_T (score_of v) k);
    try reflexivity; lra.
Qed.

Lemma sort_desc_stable (k : R) (l : list (@ScoredView R)) :
  with_score k (sort_desc l) = with_score k l.
Proof.
  induction l as [|v l IH]; [reflexivity|].
  cbn [sort_desc fold_right]. fold (sort_desc l).
  rewrite insert_desc_with_score.
  unfold with_score in *. cbn [filter]. now rewrite IH.
Qed.

(** The views come out in descending order of score, entries of equal score
    in the order in which the candidates were generated. *)
Theorem find_best_front_views_ordered
    (PCA_fit : list (@vec R) -> result (@vec R * @vec R * @vec R))
    (m : @Mesh R) (n_views : Z) (views : list (@vec R * R)) :
  find_best_front_views PCA_fit m n_views = Ok views ->
  exists fit selected,
    PCA_fit (points m) = Ok fit
    /\ views = map (fun v => (dir_of v, score_of v)) selected
    /\ subseq selected (sort_desc (scored_views m fit))
    /\ Permutation (sort_desc (scored_views m fit)) (scored_views m fit)
    /\ StronglySorted descending (sort_desc (scored_views m fit))
    /\ (forall k, with_score k (sort_desc (scored_views m fit))
                  = with_score k (scored_views m fit))
    /\ StronglySorted descending selected.
Proof.
  intros H.
  destruct (find_best_front_views_Ok _ _ _ H) as (fit & Hfit & ->).
  destruct (select_views_subseq n_views (sort_desc (scored_views m fit)) [])
    as (picked & Hsel & Hsub).
  exists fit, picked. rewrite Hsel. cbn [app].
  repeat split; try assumption.
  - apply sort_desc_Permutation.
  - apply sort_desc_sorted.
  - intros k. apply sort_desc_stable.
  - eapply StronglySorted_subseq; [exact Hsub | apply sort_desc_sorted].
Qed.

(** *** Unit directions *)

Lemma dot_self_nonneg (v : @vec R) : 0 <= dot v v.
Proof. destruct v as [[a b] c]. unfold dot. to_R. nra. Qed.

Lemma norm_normalized (v : @vec R) : nonzero v -> norm (vdiv v (norm v)) = 1.
Proof.
  intros Hv. pose proof (dot_self_nonneg v) as Hn.
  assert (Hpos : 0 < dot v v) by (unfold nonzero in Hv; lra).
  assert (Hs : 0 < norm v) by (unfold norm; to_R; now apply sqrt_lt_R0).
  assert (Hsq : norm v * norm v = dot v v)
    by (unfold norm; to_R; apply sqrt_sqrt; lra).
  destruct v as [[a b] c]. unfold vdiv.
  set (n := norm (a, b, c)) in *.
  unfold norm at 1. unfold dot in *. to_R.
  replace (a / n * (a / n) + b / n * (b / n) + c / n * (c / n))
    with ((a * a + b * b + c * c) / (n * n)) by (field; lra).
  rewrite Hsq. unfold Rdiv. rewrite Rinv_r by lra. apply sqrt_1.
Qed.

Lemma unit_nonzero (v : @vec R) : norm v = 1 -> nonzero v.
Proof.
  unfold norm, nonzero. to_R. intros H H0. rewrite H0, sqrt_0 in H. lra.
Qed.

Lemma nonzero_vneg (v : @vec R) : nonzero v -> nonzero (vneg v).
Proof.
  destruct v as [[a b] c]. unfold nonzero, vneg, dot. to_R. intros H H0.
  apply H. lra.
Qed.

Lemma nonzero_ivec (x y z : Z) :
  (x * x + y * y + z * z <> 0)%Z -> nonzero (ivec x y z).
Proof.
  intros H. unfold nonzero, ivec, dot. to_R.
  rewrite <- !mult_IZR, <- !plus_IZR. now apply not_0_IZR.
Qed.

Lemma all_candidates_nonzero (fit : @vec R * @vec R * @vec R) :
  Forall nonzero (components_ fit) ->
  Forall (fun c : Candidate => nonzero (fst (fst c)))
         (all_candidates (components_ fit)).
Proof.
  destruct fit as [[a0 a1] a2]. unfold components_. intros H.
  inversion H as [|? ? H0 H']; subst.
  inversion H' as [|? ? H1 H'']; subst.
  inversion H'' as [|? ? H2 _]; subst.
  unfold all_candidates, priority_views, standard_views. cbn [map app pca_candidates].
  repeat (apply Forall_cons || apply Forall_nil); cbn [fst];
    try assumption; try (now apply nonzero_vneg);
    try (apply nonzero_ivec; discriminate);
    apply unit_nonzero, norm_normalized, nonzero_ivec; discriminate.
Qed.

Lemma scored_views_unit (m : @Mesh R) (fit : @vec R * @vec R * @vec R) :
  Forall nonzero (components_ fit) ->
  Forall (fun v : ScoredView => norm (dir_of v) = 1) (scored_views m fit).
Proof.
  intros H. apply all_candidates_nonzero in H.
  unfold scored_views. rewrite Forall_map.
  eapply Forall_impl; [|exact H].
  intros [[d name] prio] Hd. cbn [fst] in Hd.
  unfold score_view, dir_of. cbn [fst]. destruct prio; now apply norm_normalized.
Qed.

(** Every direction returned is a unit vector, provided the fit returned no
    zero axis (the axes of a principal-axis decomposition are unit vectors). *)
Theorem find_best_front_views_unit
    (PCA_fit : list (@vec R) -> result (@vec R * @vec R * @vec R))
    (m : @Mesh R) (n_views : Z) (views : list (@vec R * R)) :
  find_best_front_views PCA_fit m n_views = Ok views ->
  (forall fit, PCA_fit (points m) = Ok fit -> Forall nonzero (components_ fit)) ->
  Forall (fun d => norm d = 1) (directions views).
Proof.
  intros H Hfit.
  destruct (find_best_front_views_ordered _ _ _ H)
    as (fit & sel & Hf & -> & Hsub & Hperm & _).
  pose proof (@scored_views_unit m fit (Hfit fit Hf)) as Hu.
  unfold directions. rewrite map_map. cbn [fst]. rewrite Forall_map.
  rewrite Forall_forall in *. intros v Hv. apply Hu.
  apply (Permutation_in _ Hperm). eapply subseq_In; eauto.
Qed.

(** * Further properties of the view selection *)

Section Counting.

Context {F : Type} {AF : Arith F}.

Lemma subseq_length (A : Type) (s l : list A) :
  subseq s l -> (List.length s <= List.length l)%nat.
Proof. induction 1; simpl; lia. Qed.

Lemma scored_views_length (m : @Mesh F) (fit : @vec F * @vec F * @vec F) :
  List.length (scored_views m fit) = 14%nat.
Proof. destruct fit as [[a0 a1] a2]. reflexivity. Qed.

Lemma sort_desc_length (l : list (@ScoredView F)) :
  List.length (sort_desc l) = List.length l.
Proof. apply Permutation_length, sort_desc_Permutation. Qed.

(** The first round of the loop always accepts. *)
Lemma select_views_first (n_views : Z) (v : @ScoredView F) (rest : list ScoredView) :
  exists picked,
    select_views n_views [] (v :: rest) = v :: picked /\ subseq picked rest.
Proof.
  cbn [select_views is_unique forallb app].
  destruct (Z.of_nat (List.length [v]) >=? n_views)%Z.
  - exists []. split; [reflexivity | apply subseq_nil_l].
  - destruct (select_views_subseq n_views rest [v]) as (p & -> & Hp).
    exists p. split; [reflexivity | exact Hp].
Qed.

Lemma sort_desc_scored_views_cons (m : @Mesh F) (fit : @vec F * @vec F * @vec F) :
  exists v rest, sort_desc (scored_views m fit) = v :: rest.
Proof.
  pose proof (sort_desc_length (scored_views m fit)) as H.
  rewrite scored_views_length in H.
  destruct (sort_desc (scored_views m fit)) as [|v rest]; [discriminate|].
  now exists v, rest.
Qed.

End Counting.

(** X1.  Whatever [n_views] is, [find_best_front_views] returns at least one
    view and at most fourteen (one per candidate); for [n_views >= 1] it
    returns at most [n_views]. *)
Theorem X1_view_count
    (F : Type) (AF : Arith F)
    (PCA_fit : list (@vec F) -> result (@vec F * @vec F * @vec F))
    (m : Mesh) (n_views : Z) (views : list (@vec F * F)) :
  find_best_front_views PCA_fit m n_views = Ok views ->
  (1 <= List.length views <= 14)%nat
  /\ ((1 <= n_views)%Z -> (Z.of_nat (List.length views) <= n_views)%Z).
Proof.
  intros H. split.
  - destruct (find_best_front_views_Ok _ _ _ H) as (fit & _ & ->).
    rewrite length_map.
    destruct (sort_desc_scored_views_cons m fit) as (v & rest & E).
    pose proof (sort_desc_length (scored_views m fit)) as Hl.
    rewrite scored_views_length, E in Hl. rewrite E.
    destruct (select_views_first n_views v rest) as (p & -> & Hp).
    apply subseq_length in Hp. simpl in *. lia.
  - intros Hn.
    destruct (find_best_front_views_Ok _ _ _ H) as (fit & _ & ->).
    rewrite length_map. apply select_views_length. simpl. lia.
Qed.

Lemma X1_view_count_witness :
  exists views,
    find_best_front_views Examples.axes_fit Examples.box 3 = Ok views
    /\ (1 <= List.length views <= 14)%nat.
Proof.
  eexists. split; [reflexivity|].
  exact (proj1 (@X1_view_count PrimFloat.float _ Examples.axes_fit
                  Examples.box 3 _ eq_refl)).
Defined.

Lemma raxes_unit_cube_components :
  forall fit, Examples.raxes_fit (points Examples.unit_cube) = Ok fit ->
              Forall nonzero (components_ fit).
Proof.
  intros fit H. apply Ok_inj in H. subst fit. unfold components_.
  repeat constructor; apply nonzero_ivec; discriminate.
Qed.

Lemma StronglySorted_map_scores (l : list (@ScoredView R)) :
  StronglySorted descending l ->
  StronglySorted (fun a b : @vec R * R => snd b <= snd a)
                 (map (fun v => (dir_of v, score_of v)) l).
Proof.
  induction 1 as [|v l Hl IH Hv]; simpl; constructor; [exact IH|].
  rewrite Forall_map. eapply Forall_impl; [|exact Hv].
  intros w Hw. exact Hw.
Qed.

(** X2.  In exact arithmetic the views come back in descending order of
    score.  They are picked, order kept, from a list that holds the fourteen
    scored candidates sorted by descending score, in which candidates of
    equal score stand in the order of their generation. *)
Theorem X2_views_ranked
    (PCA_fit : list (@vec R) -> result (@vec R * @vec R * @vec R))
    (m : @Mesh R) (n_views : Z) (views : list (@vec R * R)) :
  find_best_front_views PCA_fit m n_views = Ok views ->
  StronglySorted (fun a b : @vec R * R => snd b <= snd a) views
  /\ exists fit ranked selected,
       PCA_fit (points m) = Ok fit
       /\ views = map (fun v => (dir_of v, score_of v)) selected
       /\ subseq selected ranked
       /\ Permutation ranked (scored_views m fit)
       /\ StronglySorted descending ranked
       /\ (forall k, with_score k ranked = with_score k (scored_views m fit)).
Proof.
  intros H.
  destruct (find_best_front_views_ordered _ _ _ H)
    as (fit & sel & Hf & -> & Hsub & Hperm & Hsorted & Hstable & Hsel).
  split; [now apply StronglySorted_map_scores|].
  exists fit, (sort_desc (scored_views m fit)), sel.
  repeat split; assumption.
Qed.

Lemma X2_views_ranked_witness :
  exists views,
    find_best_front_views Examples.raxes_fit Examples.unit_cube 3 = Ok views
    /\ StronglySorted (fun a b : @vec R * R => snd b <= snd a) views.
Proof.
  eexists. split; [reflexivity|].
  exact (proj1 (@X2_views_ranked Examples.raxes_fit Examples.unit_cube 3 _
                  eq_refl)).
Defined.

(** X3.  In exact arithmetic every direction returned has length 1, as long
    as the fit hands back no zero axis: each candidate is divided by its own
    length before it is scored. *)
Theorem X3_views_are_unit
    (PCA_fit : list (@vec R) -> result (@vec R * @vec R * @vec R))
    (m : @Mesh R) (n_views : Z) (views : list (@vec R * R)) :
  find_best_front_views PCA_fit m n_views = Ok views ->
  (forall fit, PCA_fit (points m) = Ok fit -> Forall nonzero (components_ fit)) ->
  Forall (fun d => norm d = 1) (directions views).
Proof.
  intros H Hfit. exact (find_best_front_views_unit _ _ _ H Hfit).
Qed.

Lemma X3_views_are_unit_witness :
  exists views,
    find_best_front_views Examples.raxes_fit Examples.unit_cube 3 = Ok views
    /\ Forall (fun d => norm d = 1) (directions views).
Proof.
  eexists. split; [reflexivity|].
  exact (@X3_views_are_unit Examples.raxes_fit Examples.unit_cube 3 _
           eq_refl raxes_unit_cube_components).
Defined.

(** X4.  In exact arithmetic the first view returned carries the highest
    score of all fourteen candidates, whatever [n_views] is. *)
Theorem X4_first_view_scores_highest
    (PCA_fit : list (@vec R) -> result (@vec R * @vec R * @vec R))
    (m : @Mesh R) (n_views : Z) (views : list (@vec R * R)) :
  find_best_front_views PCA_fit m n_views = Ok views ->
  exists fit d s rest,
    PCA_fit (points m) = Ok fit
    /\ views = (d, s) :: rest
    /\ Forall (fun v => score_of v <= s) (scored_views m fit).
Proof.
  intros H.
  destruct (find_best_front_views_Ok _ _ _ H) as (fit & Hf & ->).
  destruct (sort_desc_scored_views_cons m fit) as (v & tail & E).
  pose proof (sort_desc_sorted (scored_views m fit)) as Hs.
  pose proof (sort_desc_Permutation (scored_views m fit)) as Hp.
  rewrite E in *.
  destruct (select_views_first n_views v tail) as (p & -> & _).
  exists fit, (dir_of v), (score_of v), (map (fun v => (dir_of v, score_of v)) p).
  repeat split; [exact Hf|].
  inversion Hs as [|? ? _ Hv]; subst.
  rewrite Forall_forall in *. intros w Hw.
  apply (Permutation_in _ (Permutation_sym Hp)) in Hw.
  destruct Hw as [<-|Hw]; [lra | exact (Hv w Hw)].
Qed.

Lemma X4_first_view_scores_highest_witness :
  exists fit d s rest,
    find_best_front_views Examples.raxes_fit Examples.unit_cube 3
    = Ok ((d, s) :: rest)
    /\ Forall (fun v => score_of v <= s) (scored_views Examples.unit_cube fit).
Proof.
  destruct (@X4_first_view_scores_highest Examples.raxes_fit Examples.unit_cube
              3 _ eq_refl) as (fit & d & s & rest & _ & Hv & Hmax).
  exists fit, d, s, rest. split; [rewrite <- Hv; reflexivity | exact Hmax].
Defined.

Section Ranking.

Context {F : Type} {AF : Arith F}.

(** An entry that nothing after it beats, and that beats everything before
    it, comes out first. *)
Lemma sort_desc_front (l1 l2 : list (@ScoredView F)) (a : ScoredView) :
  forallb (fun x => lt (score_of x) (score_of a)) l1 = true ->
  forallb (fun x => negb (lt (score_of a) (score_of x))) l2 = true ->
  exists tail, sort_desc (l1 ++ a :: l2) = a :: tail.
Proof.
  intros H1 H2. induction l1 as [|x l1 IH].
  - cbn [app sort_desc fold_right]. fold (sort_desc l2).
    destruct (sort_desc l2) as [|w t] eqn:E.
    + now exists [].
    + exists (w :: t). cbn [insert_desc].
      assert (Hw : In w l2).
      { apply (Permutation_in _ (sort_desc_Permutation l2)).
        rewrite E. now left. }
      rewrite forallb_forall in H2. apply H2 in Hw.
      apply negb_true_iff in Hw. now rewrite Hw.
  - cbn [forallb] in H1. apply andb_true_iff in H1. destruct H1 as [Hx H1].
    destruct (IH H1) as (t & E).
    cbn [app sort_desc fold_right]. fold (sort_desc (l1 ++ a :: l2)).
    rewrite E. cbn [insert_desc]. rewrite Hx. now eexists.
Qed.

Lemma is_unique_false (d : @vec F) (l : list ScoredView) :
  is_unique d l = false ->
  exists w, In w l /\ lt (dec 9 10) (dot d (dir_of w)) = true.
Proof.
  unfold is_unique. induction l as [|w l IH]; [discriminate|].
  cbn [forallb]. destruct (lt (dec 9 10) (dot d (dir_of w))) eqn:E.
  - intros _. exists w. split; [now left | exact E].
  - cbn [negb andb]. intros H. destruct (IH H) as (w' & Hw & Hd).
    exists w'. split; [now right | exact Hd].
Qed.

(** While the quota is not reached, nothing is dropped without a reason. *)
Lemma select_views_complete (n_views : Z) (rest unique_views : list (@ScoredView F)) :
  (Z.of_nat (List.length (select_views n_views unique_views rest)) < n_views)%Z ->
  forall v, In v rest ->
    In v (select_views n_views unique_views rest)
    \/ exists w, In w (select_views n_views unique_views rest)
                 /\ too_close (dir_of v) (dir_of w) = true.
Proof.
  revert unique_views.
  induction rest as [|x rest IH]; intros u Hlen v Hv; [destruct Hv|].
  cbn [select_views] in *.
  set (u' := if is_unique (dir_of x) u then (u ++ [x])%list else u) in *.
  destruct (Z.geb_spec (Z.of_nat (List.length u')) n_views) as [Hge|Hlt]; [lia|].
  destruct Hv as [<-|Hv]; [|now apply IH].
  destruct (select_views_subseq n_views rest u') as (p & E & _).
  rewrite E. unfold u'.
  destruct (is_unique (dir_of x) u) eqn:Eu.
  - left. rewrite !in_app_iff. left. right. now left.
  - right. destruct (is_unique_false _ _ Eu) as (w & Hw & Hd).
    exists w. split; [rewrite in_app_iff; now left | exact Hd].
Qed.

End Ranking.

Lemma find_best_front_views_first
    (F : Type) (AF : Arith F)
    (PCA_fit : list (@vec F) -> result (@vec F * @vec F * @vec F))
    (m : Mesh) (n_views : Z) (fit : @vec F * @vec F * @vec F)
    (before after : list (@ScoredView F)) (best : ScoredView) :
  PCA_fit (points m) = Ok fit ->
  scored_views m fit = (before ++ best :: after)%list ->
  forallb (fun x => lt (score_of x) (score_of best)) before = true ->
  forallb (fun x => negb (lt (score_of best) (score_of x))) after = true ->
  exists rest,
    find_best_front_views PCA_fit m n_views
    = Ok ((dir_of best, score_of best) :: rest).
Proof.
  intros Hf Hs Hb Ha.
  destruct (sort_desc_front before after best Hb Ha) as (tail & E).
  unfold find_best_front_views. rewrite Hf. cbn [bind].
  rewrite Hs, E.
  destruct (select_views_first n_views best tail) as (p & -> & _).
  now eexists.
Qed.

(** X5.  The first view returned is the earliest generated candidate that no
    other candidate beats: if every candidate generated before it scores
    strictly less and none generated after it scores strictly more, it is
    returned first, whatever [n_views] is. *)
Theorem X5_first_view_is_earliest_best
    (F : Type) (AF : Arith F)
    (PCA_fit : list (@vec F) -> result (@vec F * @vec F * @vec F))
    (m : Mesh) (n_views : Z) (fit : @vec F * @vec F * @vec F)
    (before after : list (@ScoredView F)) (best : ScoredView) :
  PCA_fit (points m) = Ok fit ->
  scored_views m fit = (before ++ best :: after)%list ->
  forallb (fun x => lt (score_of x) (score_of best)) before = true ->
  forallb (fun x => negb (lt (score_of best) (score_of x))) after = true ->
  exists rest,
    find_best_front_views PCA_fit m n_views
    = Ok ((dir_of best, score_of best) :: rest).
Proof.
  intros Hf Hs Hb Ha.
  exact (@find_best_front_views_first F AF PCA_fit m n_views fit before after
           best Hf Hs Hb Ha).
Qed.

Lemma X5_first_view_is_earliest_best_witness :
  exists rest,
    find_best_front_views Examples.axes_fit Examples.box 3
    = Ok ((normalize (Examples.fv 0 0 1), dec 35 10) :: rest).
Proof.
  apply (@X5_first_view_is_earliest_best PrimFloat.float _ Examples.axes_fit
           Examples.box 3
           (Examples.fv 1 0 0, Examples.fv 0 1 0, Examples.fv 0 0 1)
           []
           (List.tl (scored_views Examples.box
                       (Examples.fv 1 0 0, Examples.fv 0 1 0, Examples.fv 0 0 1)))
           (normalize (Examples.fv 0 0 1), dec 35 10, "top"%string));
    vm_compute; reflexivity.
Defined.

(** X6.  When fewer views come back than were asked for, nothing was dropped
    without a reason: every one of the fourteen candidates is among the views
    returned, or has a dot product above 0.9 with one of them. *)
Theorem X6_rejected_views_are_too_close
    (F : Type) (AF : Arith F)
    (PCA_fit : list (@vec F) -> result (@vec F * @vec F * @vec F))
    (m : Mesh) (n_views : Z) (fit : @vec F * @vec F * @vec F)
    (views : list (@vec F * F)) :
  PCA_fit (points m) = Ok fit ->
  find_best_front_views PCA_fit m n_views = Ok views ->
  (Z.of_nat (List.length views) < n_views)%Z ->
  Forall (fun v =>
            In (dir_of v, score_of v) views
            \/ exists w, In w views /\ too_close (dir_of v) (fst w) = true)
         (scored_views m fit).
Proof.
  intros Hf H Hlen.
  unfold find_best_front_views in H. rewrite Hf in H. cbn [bind] in H.
  apply Ok_inj in H. subst views. rewrite length_map in Hlen.
  rewrite Forall_forall. intros v Hv.
  apply (Permutation_in _ (Permutation_sym
           (sort_desc_Permutation (scored_views m fit)))) in Hv.
  destruct (@select_views_complete F AF n_views _ [] Hlen v Hv)
    as [Hin | (w & Hw & Hd)].
  - left. now apply (in_map (fun v => (dir_of v, score_of v))).
  - right. exists (dir_of w, score_of w). split; [|exact Hd].
    now apply (in_map (fun v => (dir_of v, score_of v))).
Qed.

Lemma X6_rejected_views_are_too_close_witness :
  exists views,
    find_best_front_views Examples.axes_fit Examples.box 20 = Ok views
    /\ Forall (fun v =>
                 In (dir_of v, score_of v) views
                 \/ exists w, In w views /\ too_close (dir_of v) (fst w) = true)
              (scored_views Examples.box
                 (Examples.fv 1 0 0, Examples.fv 0 1 0, Examples.fv 0 0 1)).
Proof.
  eexists. split; [reflexivity|].
  apply (@X6_rejected_views_are_too_close PrimFloat.float _ Examples.axes_fit
           Examples.box 20); [reflexivity | reflexivity |].
  vm_compute. reflexivity.
Defined.

(** *** The range of the scores *)

Lemma unit_dot_self (v : @vec R) : norm v = 1 -> dot v v = 1.
Proof.
  intros H. pose proof (dot_self_nonneg v) as Hn.
  unfold norm in H. to_R.
  rewrite <- (sqrt_sqrt (dot v v)) by exact Hn. rewrite H. ring.
Qed.

(** Cauchy-Schwarz for unit vectors. *)
Lemma abs_dot_unit (d a : @vec R) :
  norm d = 1 -> norm a = 1 -> 0 <= Rabs (dot d a) <= 1.
Proof.
  intros Hd Ha. apply unit_dot_self in Hd. apply unit_dot_self in Ha.
  split; [apply Rabs_pos|].
  destruct d as [[d0 d1] d2], a as [[a0 a1] a2]. unfold dot in *. to_R.
  apply Rabs_le.
  pose proof (Rle_0_sqr (d0 * a1 - d1 * a0)) as H1.
  pose proof (Rle_0_sqr (d0 * a2 - d2 * a0)) as H2.
  pose proof (Rle_0_sqr (d1 * a2 - d2 * a1)) as H3.
  unfold Rsqr in *.
  assert (Hsq : (d0 * a0 + d1 * a1 + d2 * a2) * (d0 * a0 + d1 * a1 + d2 * a2) <= 1).
  { replace 1 with ((d0 * d0 + d1 * d1 + d2 * d2) * (a0 * a0 + a1 * a1 + a2 * a2))
      by (rewrite Hd, Ha; ring).
    nra. }
  split; nra.
Qed.

Lemma pca_score_range (fit : @vec R * @vec R * @vec R) (d : @vec R) :
  Forall (fun a => norm a = 1) (components_ fit) ->
  norm d = 1 ->
  0 <= pca_score (components_ fit) d <= 1.
Proof.
  destruct fit as [[a0 a1] a2]. unfold components_. intros H Hd.
  inversion H as [|? ? H0 H']; subst.
  inversion H' as [|? ? H1 H'']; subst.
  inversion H'' as [|? ? H2 _]; subst.
  unfold pca_score. cbn [map fold_left]. rewrite !py_max_Rmax. to_R.
  pose proof (abs_dot_unit d a0 Hd H0).
  pose proof (abs_dot_unit d a1 Hd H1).
  pose proof (abs_dot_unit d a2 Hd H2).
  unfold Rmax. repeat destruct (Rle_dec _ _); lra.
Qed.

Lemma filter_length_le (A : Type) (f : A -> bool) (l : list A) :
  (List.length (filter f l) <= List.length l)%nat.
Proof. induction l as [|x l IH]; simpl; [lia | destruct (f x); simpl; lia]. Qed.

Lemma visibility_score_range (m : @Mesh R) (d : @vec R) :
  0 <= visibility_score m d <= 1.
Proof.
  assert (H6 : 0 <= dec 6 10 <= 1) by (rewrite dec_R; lra).
  unfold visibility_score.
  destruct ((0 <? n_cells m)%Z && (n_cells m <? 100000)%Z)%bool; [|exact H6].
  destruct (mesh_normals m) as [ns|e]; [|exact H6].
  unfold count_positive. to_R.
  set (c := List.length (filter _ _)).
  assert (Hc : (c <= List.length ns)%nat).
  { unfold c. etransitivity; [apply filter_length_le|].
    unfold dot_rows. now rewrite length_map. }
  destruct (List.length ns) as [|n] eqn:En.
  - replace c with 0%nat by lia. simpl. unfold Rdiv. rewrite Rmult_0_l. lra.
  - rewrite <- !INR_IZR_INZ.
    assert (Hpos : 0 < INR (S n)) by (apply lt_0_INR; lia).
    assert (Hle : INR c <= INR (S n)) by (apply le_INR; lia).
    pose proof (pos_INR c) as H0.
    split.
    + apply Rmult_le_pos; [exact H0 | left; now apply Rinv_0_lt_compat].
    + apply (Rmult_le_reg_r (INR (S n))); [exact Hpos|].
      unfold Rdiv. rewrite Rmult_assoc, Rinv_l by lra. lra.
Qed.

(** X7.  In exact arithmetic, with unit principal axes, every score lies in
    a fixed range: between 1 and 6 for the priority candidates "top" and
    "front", between 0 and 5 for the twelve others. *)
Theorem X7_score_range (m : @Mesh R) (fit : @vec R * @vec R * @vec R) :
  Forall (fun a => norm a = 1) (components_ fit) ->
  Forall (fun v : ScoredView =>
            if is_priority_name (snd v) then 1 <= score_of v <= 6
            else 0 <= score_of v <= 5)
         (scored_views m fit).
Proof.
  intros Hu.
  assert (Hnz : Forall nonzero (components_ fit))
    by (eapply Forall_impl; [|exact Hu]; intros a; apply unit_nonzero).
  apply all_candidates_nonzero in Hnz.
  assert (Hrange : Forall (fun c : Candidate =>
            let v := score_view m (components_ fit) c in
            if snd c then 1 <= score_of v <= 6 else 0 <= score_of v <= 5)
          (all_candidates (components_ fit))).
  { eapply Forall_impl; [|exact Hnz].
    intros [[raw name] prio] Hraw. cbn [fst snd] in *.
    unfold score_view, score_of, base_score. cbn [fst snd].
    pose proof (@pca_score_range fit (vdiv raw (norm raw)) Hu
                  (@norm_normalized raw Hraw)) as Hp.
    pose proof (visibility_score_range m (vdiv raw (norm raw))) as Hv.
    rewrite !dec_R. to_R. destruct prio; lra. }
  unfold scored_views. rewrite Forall_map.
  destruct fit as [[a0 a1] a2]. unfold components_ in *.
  unfold all_candidates, priority_views, standard_views in *.
  cbn [map app pca_candidates] in *.
  repeat match goal with
  | H : Forall _ (_ :: _) |- Forall _ (_ :: _) =>
      let Hh := fresh "Hh" in let Ht := fresh "Ht" in
      inversion H as [|? ? Hh Ht]; subst; clear H;
      apply Forall_cons; [exact Hh | rename Ht into H]
  end.
  apply Forall_nil.
Qed.

Lemma unit_x_axis : norm (ivec 1 0 0 : @vec R) = 1.
Proof.
  unfold norm, dot, ivec. to_R.
  replace (1 * 1 + 0 * 0 + 0 * 0) with 1 by ring. apply sqrt_1.
Qed.

Lemma unit_y_axis : norm (ivec 0 1 0 : @vec R) = 1.
Proof.
  unfold norm, dot, ivec. to_R.
  replace (0 * 0 + 1 * 1 + 0 * 0) with 1 by ring. apply sqrt_1.
Qed.

Lemma X7_score_range_witness :
  Forall (fun v : ScoredView =>
            if is_priority_name (snd v) then 1 <= score_of v <= 6
            else 0 <= score_of v <= 5)
         (scored_views Examples.unit_cube (ivec 1 0 0, ivec 0 1 0, ivec 0 0 1)).
Proof.
  apply X7_score_range.
  repeat constructor; [exact unit_x_axis | exact unit_y_axis | exact norm_z_axis].
Defined.

(** *** A direction and its opposite *)

Lemma dot_vneg_l (d a : @vec R) : dot (vneg d) a = - dot d a.
Proof.
  destruct d as [[d0 d1] d2], a as [[a0 a1] a2]. unfold dot, vneg. to_R. ring.
Qed.

Lemma dot_vneg_r (f d : @vec R) : dot f (vneg d) = - dot f d.
Proof.
  destruct d as [[d0 d1] d2], f as [[f0 f1] f2]. unfold dot, vneg. to_R. ring.
Qed.

Lemma pca_score_vneg (components : list (@vec R)) (d : @vec R) :
  pca_score components (vneg d) = pca_score components d.
Proof.
  unfold pca_score.
  replace (map (fun comp => fabs (dot (vneg d) comp)) components)
    with (map (fun comp => fabs (dot d comp)) components); [reflexivity|].
  apply map_ext. intros a. rewrite dot_vneg_l. to_R. now rewrite Rabs_Ropp.
Qed.

Lemma two_filters_length (A : Type) (f g : A -> bool) (l : list A) :
  (forall x, f x = true -> g x = false) ->
  (List.length (filter f l) + List.length (filter g l) <= List.length l)%nat.
Proof.
  intros H. induction l as [|x l IH]; simpl; [lia|].
  destruct (f x) eqn:Ef.
  - rewrite (H x Ef). simpl. lia.
  - destruct (g x); simpl; lia.
Qed.

(** X8.  In exact arithmetic a direction and its opposite are equally well
    aligned with the principal axes.  For a mesh of 100 000 faces or more,
    whose visibility is the constant 0.6, they therefore get the same base
    score; for a mesh of fewer faces whose normals are at hand, their two
    visibility terms add up to at most 1. *)
Theorem X8_opposite_directions
    (m : @Mesh R) (components : list (@vec R)) (d : @vec R) :
  pca_score components (vneg d) = pca_score components d
  /\ ((100000 <= n_cells m)%Z ->
      base_score m components (vneg d) = base_score m components d)
  /\ ((0 < n_cells m < 100000)%Z ->
      forall normals, mesh_normals m = Ok normals ->
      visibility_score m d + visibility_score m (vneg d) <= 1).
Proof.
  split; [apply pca_score_vneg | split].
  - intros H. unfold base_score.
    now rewrite pca_score_vneg, !visibility_score_large by exact H.
  - intros H ns Hns.
    rewrite !visibility_score_mid by exact H. rewrite Hns.
    unfold fraction_facing.
    set (c1 := List.length (filter (fun f => lt (of_int 0) (row_dot3 f d)) ns)).
    set (c2 := List.length
                 (filter (fun f => lt (of_int 0) (row_dot3 f (vneg d))) ns)).
    assert (Hc : (c1 + c2 <= List.length ns)%nat).
    { apply two_filters_length. intros f Hf.
      change (Rltb 0 (dot f d) = true) in Hf.
      change (Rltb 0 (dot f (vneg d)) = false).
      apply Rltb_true in Hf. apply Rltb_false.
      rewrite dot_vneg_r. to_R. lra. }
    to_R.
    destruct (List.length ns) as [|n] eqn:En.
    + replace c1 with 0%nat by lia. replace c2 with 0%nat by lia.
      simpl. unfold Rdiv. rewrite Rmult_0_l. lra.
    + rewrite <- !INR_IZR_INZ.
      assert (Hpos : 0 < INR (S n)) by (apply lt_0_INR; lia).
      assert (Hle : INR c1 + INR c2 <= INR (S n))
        by (rewrite <- plus_INR; apply le_INR; lia).
      apply (Rmult_le_reg_r (INR (S n))); [exact Hpos|].
      unfold Rdiv. rewrite Rmult_plus_distr_r, !Rmult_assoc, Rinv_l by lra. lra.
Qed.

Lemma X8_opposite_directions_witness :
  visibility_score Examples.unit_cube (ivec 0 0 1)
  + visibility_score Examples.unit_cube (vneg (ivec 0 0 1)) <= 1.
Proof.
  apply (proj2 (proj2 (X8_opposite_directions Examples.unit_cube [] (ivec 0 0 1)))
           ltac:(simpl; lia) _ eq_refl).
Defined.

(** * Further properties of the camera framing *)

Lemma positive_visible_width_R (cb : option (list R)) :
  positive_visible_width cb = true ->
  exists b, valid_bounds cb = Some b /\ 0 < visible_width b.
Proof.
  unfold positive_visible_width.
  destruct (valid_bounds cb) as [b|]; [|discriminate].
  to_R. intros H. exists b. split; [reflexivity | now apply Rltb_true].
Qed.

(** X9.  In any arithmetic [render_view] has four outcomes and no other: a
    [ValueError] when the arguments are rejected (a preset that is unknown
    once lower-cased, or neither preset nor direction); [OverflowError] when
    they are accepted and the square of an extent is out of range;
    [ZeroDivisionError] when, past that, the renderer reports a positive
    visible width and the largest extent, or the ratio of the width to it, is
    zero; a camera in every other case. *)
Theorem X9_render_view_outcomes
    (F : Type) (AF : Arith F) (SL : StrLower)
    (m : @Mesh F) (vd : option vec) (preset : option string)
    (cb : option (list F)) :
  (arguments_accepted vd preset = false ->
   is_ValueError (render_view m vd preset cb) = true)
  /\ (arguments_accepted vd preset = true ->
      extent_overflows m = true ->
      render_view m vd preset cb = Raise OverflowError)
  /\ (arguments_accepted vd preset = true ->
      extent_overflows m = false ->
      zoom_divides_by_zero m cb = true ->
      render_view m vd preset cb = Raise ZeroDivisionError)
  /\ (arguments_accepted vd preset = true ->
      extent_overflows m = false ->
      zoom_divides_by_zero m cb = false ->
      is_Ok (render_view m vd preset cb) = true).
Proof.
  destruct (render_view_raises m vd preset cb) as (_ & H2 & H3).
  split; [|split; [exact H2 | split; [exact H3|]]].
  - intros Ha. now rewrite is_ValueError_render_view, Ha.
  - intros Ha Ho Hz. now rewrite is_Ok_render_view, Ha, Ho, Hz.
Qed.

Lemma X9_render_view_outcomes_witness :
  render_view (SL := Examples.ascii_lower) Examples.empty_mesh None
              (Some "top"%string) None
  = Raise OverflowError
  /\ is_Ok (render_view (SL := Examples.ascii_lower) Examples.box None
                        (Some "top"%string) None) = true.
Proof.
  split.
  - apply (proj1 (proj2 (@X9_render_view_outcomes PrimFloat.float _
                           Examples.ascii_lower Examples.empty_mesh None
                           (Some "top"%string) None)));
      reflexivity.
  - apply (proj2 (proj2 (proj2 (@X9_render_view_outcomes PrimFloat.float _
                                  Examples.ascii_lower Examples.box None
                                  (Some "top"%string) None))));
      reflexivity.
Defined.

(** *** Distance and clipping range *)

Lemma norm_of_square (v : @vec R) (k : R) :
  0 <= k -> dot v v = k * k -> norm v = k.
Proof.
  intros Hk H. unfold norm. to_R. rewrite H. now apply sqrt_square.
Qed.

Lemma camera_distance_nonneg (diag : R) : 0 <= diag -> 0 <= camera_distance diag.
Proof. intros H. rewrite camera_distance_R. lra. Qed.

(** The camera is put at the camera distance from the focal point. *)
Lemma place_camera_distance (SL : StrLower) (k : R) (vd : option vec)
    (p : option string) (pos fp upv : vec) :
  place_camera k vd p = Ok (pos, fp, upv) ->
  0 <= k ->
  usable_direction p vd ->
  norm (vsub pos fp) = k.
Proof.
  unfold place_camera, usable_direction. intros H Hk Hd.
  cbv zeta in H. unfold mesh_center, ivec in H.
  destruct (truthy p) as [s|].
  - preset_cases (str_lower s); try discriminate;
      injection H as <- <- <-; apply norm_of_square; try exact Hk;
      unfold vsub, dot; to_R; ring.
  - destruct vd as [d|]; [|discriminate].
    pose proof (@unit_dot_self _ (@norm_normalized d Hd)) as Hu.
    destruct (vdiv d (norm d)) as [[u0 u1] u2] eqn:Eu.
    injection H as <- <- <-. apply norm_of_square; [exact Hk|].
    unfold vsub, vscale, dot in *. to_R.
    replace ((0 - u0 * k - 0) * (0 - u0 * k - 0)
             + (0 - u1 * k - 0) * (0 - u1 * k - 0)
             + (0 - u2 * k - 0) * (0 - u2 * k - 0))
      with ((u0 * u0 + u1 * u1 + u2 * u2) * (k * k)) by ring.
    rewrite Hu. ring.
Qed.

(** A direction that can be normalised can be normalised again after the
    first block. *)
Lemma check_arguments_usable (SL : StrLower) (m : @Mesh R) (vd vd' : option vec)
    (p : option string) (pos0 up0 : vec) :
  check_arguments m vd p = Ok (pos0, up0, vd') ->
  usable_direction p vd ->
  usable_direction p vd'.
Proof.
  unfold check_arguments, usable_direction.
  destruct (truthy p) as [s|]; [intros _ _; now destruct vd'|].
  destruct vd as [d|]; [|discriminate].
  intros H Hd. injection H as _ _ <-.
  apply unit_nonzero. now apply norm_normalized.
Qed.

(** The camera of a call that returns is at 1.8 times the diagonal from its
    focal point. *)
Lemma render_view_distance (SL : StrLower) (m : @Mesh R) (vd : option vec)
    (preset : option string) (cb : option (list R)) (cam : Camera) :
  render_view m vd preset cb = Ok cam ->
  usable_direction preset vd ->
  norm (vsub (position cam) (focal_point cam)) = 1.8 * box_diagonal m
  /\ clipping_range cam
     = clipping (box_diagonal m) (position cam) (focal_point cam).
Proof.
  intros H Hd.
  destruct (@render_view_Ok R _ SL m vd preset cb cam H)
    as (pos0 & up0 & vd' & dg & pos & fp & upv & z & Hc & Hdg & Hp & _ & ->).
  cbn [position focal_point clipping_range].
  rewrite diagonal_size_R in Hdg. injection Hdg as <-.
  split; [|reflexivity].
  rewrite <- camera_distance_R.
  apply (@place_camera_distance SL _ vd' preset pos fp upv Hp).
  - apply camera_distance_nonneg, box_diagonal_nonneg.
  - exact (@check_arguments_usable SL m vd vd' preset pos0 up0 Hc Hd).
Qed.

Lemma unit_cube_diagonal : 0 < box_diagonal Examples.unit_cube.
Proof.
  unfold box_diagonal, x_size, y_size, z_size, Examples.unit_cube.
  cbn [bounds]. rewrite !dec_R. to_R. apply sqrt_lt_R0. lra.
Qed.

Lemma C7_clipping_range_witness :
  exists cam,
    render_view (SL := Examples.ascii_lower) Examples.unit_cube
                (Some (ivec 0 0 1)) None None = Ok cam
    /\ 0 < fst (clipping_range cam)
    /\ fst (clipping_range cam) < snd (clipping_range cam).
Proof.
  destruct (@render_view_returns_R Examples.ascii_lower Examples.unit_cube
              (Some (ivec 0 0 1)) None None eq_refl eq_refl) as [cam Hcam].
  exists cam. split; [exact Hcam|].
  destruct (position cam) as [[p0 p1] p2] eqn:Ep.
  destruct (focal_point cam) as [[f0 f1] f2] eqn:Ef.
  apply (@C7_clipping_range Examples.ascii_lower Examples.unit_cube
           (Some (ivec 0 0 1)) None None cam _ _ _ _ _ _ p0 p1 p2 f0 f1 f2
           Hcam eq_refl Ep Ef).
  rewrite <- norm_components.
  change (p0 - f0, p1 - f1, p2 - f2) with (vsub (p0, p1, p2) (f0, f1, f2)).
  rewrite <- Ep, <- Ef.
  rewrite (proj1 (@render_view_distance Examples.ascii_lower Examples.unit_cube
                    (Some (ivec 0 0 1)) None None cam Hcam
                    (@unit_nonzero _ norm_z_axis))).
  pose proof unit_cube_diagonal. lra.
Defined.

(** X10.  In exact arithmetic every camera returned for a preset, or for a
    direction other than the zero vector, stands at 1.8 times the length of
    the diagonal of the bounding box from its focal point, and its clipping
    range is 0.8 times and 2.8 times that length. *)
Theorem X10_distance_and_clipping
    (SL : StrLower) (m : @Mesh R) (vd : option vec) (preset : option string)
    (cb : option (list R)) (cam : Camera)
    (x0 x1 y0 y1 z0 z1 p0 p1 p2 f0 f1 f2 : R) :
  render_view m vd preset cb = Ok cam ->
  usable_direction preset vd ->
  bounds m = (x0, x1, y0, y1, z0, z1) ->
  position cam = (p0, p1, p2) ->
  focal_point cam = (f0, f1, f2) ->
  let diag :=
    sqrt ((x1 - x0) * (x1 - x0) + (y1 - y0) * (y1 - y0)
          + (z1 - z0) * (z1 - z0)) in
  sqrt ((p0 - f0) * (p0 - f0) + (p1 - f1) * (p1 - f1) + (p2 - f2) * (p2 - f2))
  = 1.8 * diag
  /\ clipping_range cam = (0.8 * diag, 2.8 * diag).
Proof.
  intros H Hd Hb Hpos Hfp diag.
  destruct (@render_view_Ok R _ SL m vd preset cb cam H)
    as (pos0 & up0 & vd' & dg & pos & fp & upv & z & Hc & Hdg & Hp & _ & ->).
  cbn [position focal_point clipping_range] in *. subst pos fp.
  rewrite diagonal_size_R, (box_diagonal_bounds m Hb) in Hdg.
  fold diag in Hdg. injection Hdg as <-.
  assert (Hn : 0 <= diag) by apply sqrt_pos.
  assert (Hdist : norm (vsub (p0, p1, p2) (f0, f1, f2)) = 1.8 * diag).
  { rewrite <- camera_distance_R.
    apply (@place_camera_distance SL _ vd' preset _ _ upv Hp).
    - now apply camera_distance_nonneg.
    - exact (@check_arguments_usable SL m vd vd' preset pos0 up0 Hc Hd). }
  split; [exact Hdist|].
  unfold clipping. rewrite Hdist, py_max_Rmax, dec_R. to_R.
  unfold Rmax. destruct (Rle_dec _ _); f_equal; lra.
Qed.

Lemma X10_distance_and_clipping_witness :
  exists cam,
    render_view (SL := Examples.ascii_lower) Examples.unit_cube
                (Some (ivec 0 0 1)) None None = Ok cam
    /\ clipping_range cam
       = (0.8 * sqrt ((dec 1 2 - dec (-1) 2) * (dec 1 2 - dec (-1) 2)
                      + (dec 1 2 - dec (-1) 2) * (dec 1 2 - dec (-1) 2)
                      + (dec 1 2 - dec (-1) 2) * (dec 1 2 - dec (-1) 2)),
          2.8 * sqrt ((dec 1 2 - dec (-1) 2) * (dec 1 2 - dec (-1) 2)
                      + (dec 1 2 - dec (-1) 2) * (dec 1 2 - dec (-1) 2)
                      + (dec 1 2 - dec (-1) 2) * (dec 1 2 - dec (-1) 2))).
Proof.
  destruct (@render_view_returns_R Examples.ascii_lower Examples.unit_cube
              (Some (ivec 0 0 1)) None None eq_refl eq_refl) as [cam Hcam].
  exists cam. split; [exact Hcam|].
  destruct (position cam) as [[p0 p1] p2] eqn:Ep.
  destruct (focal_point cam) as [[f0 f1] f2] eqn:Ef.
  exact (proj2 (@X10_distance_and_clipping Examples.ascii_lower
                  Examples.unit_cube (Some (ivec 0 0 1)) None None cam
                  _ _ _ _ _ _ p0 p1 p2 f0 f1 f2 Hcam
                  (@unit_nonzero _ norm_z_axis) eq_refl Ep Ef)).
Defined.

(** *** The length of the direction *)

Lemma normalize_scale (d : @vec R) (k : R) :
  0 < k -> vdiv (vscale d k) (norm (vscale d k)) = vdiv d (norm d).
Proof.
  intros Hk. destruct d as [[a b] c].
  assert (Hn : norm (vscale (a, b, c) k) = k * norm (a, b, c)).
  { unfold vscale. to_R. rewrite !norm_components.
    replace (a * k * (a * k) + b * k * (b * k) + c * k * (c * k))
      with (k * k * (a * a + b * b + c * c)) by ring.
    rewrite sqrt_mult_alt by nra. rewrite sqrt_square by lra. reflexivity. }
  rewrite Hn. pose proof (dot_self_nonneg (a, b, c)) as Hs.
  destruct Hs as [Hs|Hs].
  - assert (Hpos : 0 < norm (a, b, c))
      by (unfold norm; to_R; now apply sqrt_lt_R0).
    unfold vdiv, vscale. to_R. f_equal; [f_equal|]; field; lra.
  - unfold dot in Hs. to_R.
    assert (a = 0 /\ b = 0 /\ c = 0) as (-> & -> & ->) by (repeat split; nra).
    unfold vdiv, vscale. to_R. unfold Rdiv. f_equal; [f_equal|]; ring.
Qed.

(** X11.  In exact arithmetic only the sense of a direction counts, not its
    length: a direction and any positive multiple of it give the same
    result. *)
Theorem X11_direction_length_is_irrelevant
    (SL : StrLower) (m : @Mesh R) (d : @vec R) (k : R) (cb : option (list R)) :
  0 < k ->
  render_view m (Some (vscale d k)) None cb = render_view m (Some d) None cb.
Proof.
  intros Hk. unfold render_view, check_arguments.
  cbn [truthy bind]. now rewrite (normalize_scale d Hk).
Qed.

Lemma X11_direction_length_is_irrelevant_witness :
  render_view (SL := Examples.ascii_lower) Examples.unit_cube
              (Some (vscale (ivec 1 1 0) 5)) None None
  = render_view (SL := Examples.ascii_lower) Examples.unit_cube
                (Some (ivec 1 1 0)) None None.
Proof.
  apply X11_direction_length_is_irrelevant. lra.
Defined.

(** *** Zoom when the renderer reports the mesh's own box *)

Lemma valid_bounds_list (b : R * R * R * R * R * R) :
  valid_bounds (Some (bounds_list b)) = Some (bounds_list b).
Proof. destruct b as [[[[[x0 x1] y0] y1] z0] z1]. reflexivity. Qed.

Lemma visible_width_own (m : @Mesh R) :
  visible_width (bounds_list (bounds m)) = Rmax (x_size m) (y_size m).
Proof.
  unfold visible_width, x_size, y_size. rewrite py_max_Rmax.
  destruct (bounds m) as [[[[[x0 x1] y0] y1] z0] z1]. reflexivity.
Qed.

Lemma max_dimension_R (m : @Mesh R) :
  max_dimension m = Rmax (Rmax (x_size m) (y_size m)) (z_size m).
Proof. unfold max_dimension, py_max3. now rewrite !py_max_Rmax. Qed.

(** X12.  In exact arithmetic, when the renderer reports the bounding box of
    the mesh itself and the mesh has some width in x or y, the zoom applied
    lies between 0.875 and 3: the lower end 0.5 of the clamp is out of reach.
    It is exactly 0.875 when the extent in z is not the largest. *)
Theorem X12_zoom_for_own_bounds
    (SL : StrLower) (m : @Mesh R) (vd : option vec) (preset : option string) :
  is_Ok (check_arguments m vd preset) = true ->
  0 < Rmax (x_size m) (y_size m) ->
  exists cam z,
    render_view m vd preset (own_bounds m vd preset) = Ok cam
    /\ zoom cam = Some z
    /\ 0.875 <= z <= 3
    /\ (z_size m <= Rmax (x_size m) (y_size m) -> z = 0.875).
Proof.
  intros Hc Hw. unfold own_bounds.
  set (w := Rmax (x_size m) (y_size m)) in *.
  assert (Hvw : visible_width (bounds_list (bounds m)) = w)
    by apply visible_width_own.
  assert (Hmax : max_dimension m = Rmax w (z_size m))
    by apply max_dimension_R.
  assert (Hge : w <= max_dimension m) by (rewrite Hmax; apply Rmax_l).
  assert (Hm : max_dimension m <> 0) by lra.
  pose proof (@intelligent_zoom_R m (Some (bounds_list (bounds m))) _
                (valid_bounds_list (bounds m))) as Hz.
  rewrite Hvw in Hz. specialize (Hz Hw Hm).
  destruct (@render_view_returns_R SL m vd preset
              (Some (bounds_list (bounds m))) Hc)
    as [cam Hcam]; [now rewrite Hz|].
  destruct (@render_view_Ok R _ SL m vd preset _ cam Hcam)
    as (pos0 & up0 & vd' & dg & pos & fp & upv & z & _ & _ & _ & Hzoom & Ecam).
  rewrite Hz in Hzoom. injection Hzoom as <-.
  exists cam. eexists. split; [exact Hcam|].
  split; [rewrite Ecam; reflexivity|].
  set (M := max_dimension m) in *. clearbody M.
  assert (Hratio : 0.875 / (w / M) = 0.875 * M / w) by (field; lra).
  rewrite Hratio.
  assert (Hlow : 0.875 <= 0.875 * M / w).
  { apply (Rmult_le_reg_r w); [exact Hw|].
    unfold Rdiv. rewrite Rmult_assoc, Rinv_l by lra. nra. }
  split.
  - unfold Rmax, Rmin.
    destruct (Rle_dec 3 _); destruct (Rle_dec 0.5 _); lra.
  - intros Hzs.
    assert (HM : M = w).
    { rewrite Hmax. unfold Rmax. destruct (Rle_dec w (z_size m)); lra. }
    rewrite HM. replace (0.875 * w / w) with 0.875 by (field; lra).
    unfold Rmax, Rmin.
    destruct (Rle_dec 3 0.875); destruct (Rle_dec 0.5 _); lra.
Qed.

Lemma unit_cube_width : 0 < Rmax (x_size Examples.unit_cube) (y_size Examples.unit_cube).
Proof.
  unfold x_size, y_size, Examples.unit_cube. cbn [bounds]. rewrite !dec_R. to_R.
  unfold Rmax. destruct (Rle_dec _ _); lra.
Qed.

Lemma X12_zoom_for_own_bounds_witness :
  exists cam z,
    render_view (SL := Examples.ascii_lower) Examples.unit_cube None
      (Some "front"%string)
      (own_bounds Examples.unit_cube None (Some "front"%string)) = Ok cam
    /\ zoom cam = Some z
    /\ 0.875 <= z <= 3.
Proof.
  destruct (@X12_zoom_for_own_bounds Examples.ascii_lower Examples.unit_cube
              None (Some "front"%string) eq_refl unit_cube_width)
    as (cam & z & H & Hz & Hr & _).
  exists cam, z. repeat split; try assumption; apply Hr.
Defined.

(** *** The distance of [get_preset_view] and the distance used *)

Lemma diagonal_size_bounds (m : @Mesh R) :
  well_formed_bounds m ->
  max_dimension m <= box_diagonal m
  /\ box_diagonal m * box_diagonal m <= 3 * (max_dimension m * max_dimension m).
Proof.
  intros (Hx & Hy & Hz).
  pose proof (box_diagonal_nonneg m) as Hd.
  assert (Hsq : box_diagonal m * box_diagonal m
                = x_size m * x_size m + y_size m * y_size m + z_size m * z_size m).
  { unfold box_diagonal. apply sqrt_sqrt. nra. }
  rewrite max_dimension_R.
  set (x := x_size m) in *. set (y := y_size m) in *. set (z := z_size m) in *.
  set (D := box_diagonal m) in *. clearbody x y z D.
  unfold Rmax. destruct (Rle_dec x y); destruct (Rle_dec _ z); split; nra.
Qed.

(** X13.  In exact arithmetic, for a mesh with a proper bounding box, the
    camera that [render_view] assigns for a preset is on the axis that
    [get_preset_view] names and has its up vector, but stands nearer: at
    between 0.45 and 0.78 of the distance [4.0 * max_dimension] that
    [get_preset_view] computes, never at it. *)
Theorem X13_preset_camera_is_nearer
    (SL : StrLower) (m : @Mesh R) (vd : option vec) (s : string)
    (cb : option (list R)) (p u : vec) (cam : Camera) :
  well_formed_bounds m ->
  0 < max_dimension m ->
  s <> ""%string ->
  get_preset_view m s = Some (p, u) ->
  render_view m vd (Some s) cb = Ok cam ->
  exists k,
    0.45 <= k < 0.78
    /\ position cam = vscale p k
    /\ up cam = u.
Proof.
  intros Hwf HM Hs Hg H.
  destruct (diagonal_size_bounds Hwf) as (Hlo & Hhi).
  pose proof (box_diagonal_nonneg m) as Hd.
  exists (camera_distance (box_diagonal m) / (4 * max_dimension m)).
  rewrite camera_distance_R.
  set (M := max_dimension m) in *. set (D := box_diagonal m) in *.
  split.
  - split.
    + apply (Rmult_le_reg_r (4 * M)); [lra|].
      unfold Rdiv. rewrite Rmult_assoc, Rinv_l by lra. lra.
    + apply (Rmult_lt_reg_r (4 * M)); [lra|].
      unfold Rdiv. rewrite Rmult_assoc, Rinv_l by lra.
      clearbody M D. nra.
  - destruct (@render_view_Ok R _ SL m vd (Some s) cb cam H)
      as (pos0 & up0 & vd' & dg & pos & fp & upv & z & _ & Hdg & Hp & _ & ->).
    cbn [position up].
    rewrite diagonal_size_R in Hdg. injection Hdg as <-. fold D in Hp.
    unfold place_camera in Hp. rewrite truthy_Some in Hp by exact Hs.
    cbv zeta in Hp. unfold mesh_center, ivec in Hp.
    unfold get_preset_view in Hg. fold M in Hg.
    rewrite camera_distance_R in Hp.
    assert (HM0 : M <> 0) by lra. clearbody M D.
    preset_cases (str_lower s);
      try match goal with
          | E : str_lower s = _ |- _ => rewrite E in Hg
          end;
      try (cbn [find fst snd String.eqb Ascii.eqb Bool.eqb option_map] in Hg;
           injection Hg as <- <-; injection Hp as <- _ <-;
           split; [|reflexivity];
           unfold vscale, ivec; rewrite ?dec_R; to_R;
           f_equal; [f_equal|]; field; exact HM0).
    discriminate Hp.
Qed.

Lemma unit_cube_well_formed : well_formed_bounds Examples.unit_cube.
Proof.
  unfold well_formed_bounds, x_size, y_size, z_size, Examples.unit_cube.
  cbn [bounds]. rewrite !dec_R. to_R. lra.
Qed.

Lemma X13_preset_camera_is_nearer_witness :
  exists cam p u k,
    get_preset_view (SL := Examples.ascii_lower) Examples.unit_cube "front"
    = Some (p, u)
    /\ render_view (SL := Examples.ascii_lower) Examples.unit_cube None
                   (Some "front"%string) None = Ok cam
    /\ 0.45 <= k < 0.78
    /\ position cam = vscale p k
    /\ up cam = u.
Proof.
  assert (HM : 0 < max_dimension Examples.unit_cube)
    by (rewrite unit_cube_max_dimension; lra).
  destruct (@render_view_returns_R Examples.ascii_lower Examples.unit_cube
              None (Some "front"%string) None eq_refl eq_refl) as [cam Hcam].
  destruct (@X13_preset_camera_is_nearer Examples.ascii_lower
              Examples.unit_cube None "front" None
              _ _ cam unit_cube_well_formed HM ltac:(discriminate)
              eq_refl Hcam)
    as (k & Hk & Hpos & Hup).
  exists cam. do 3 eexists.
  repeat split; try exact Hcam; try exact Hpos; try exact Hup; apply Hk.
Defined.


(** * Properties of the callers *)

Local Open Scope string_scope.


Lemma append_inv_head (a b c : string) : a ++ b = a ++ c -> b = c.
Proof. induction a as [|x a IH]; simpl; [tauto | intros [= H]; auto]. Qed.






Section CallersFacts.

Context {F : Type} {AF : Arith F} {SL : StrLower}.
Variable PCA_fit : list (@vec F) -> result (@vec F * @vec F * @vec F).
Variable visible_bounds : option (@vec F) -> option string -> option (list F).

(** With a direction and no preset, only the squares of the extents and the
    zoom step can fail. *)
Lemma render_view_direction_Raise (m : @Mesh F) (d : vec)
    (cb : option (list F)) (e : exn) :
  render_view m (Some d) None cb = Raise e ->
  (extent_overflows m = true /\ e = OverflowError)
  \/ (extent_overflows m = false /\ e = ZeroDivisionError).
Proof.
  intros H.
  destruct (render_view_raises m (Some d) None cb) as (_ & H2 & H3).
  pose proof (is_Ok_render_view m (Some d) None cb) as Hok.
  rewrite H in Hok. cbn [is_Ok arguments_accepted truthy andb] in Hok.
  destruct (extent_overflows m) eqn:Eo.
  - left. split; [reflexivity|].
    rewrite (H2 eq_refl eq_refl) in H. congruence.
  - right. split; [reflexivity|].
    destruct (zoom_divides_by_zero m cb) eqn:Ez; [|discriminate].
    rewrite (H3 eq_refl eq_refl eq_refl) in H. congruence.
Qed.

(** Some view is always found. *)
Lemma find_best_front_views_cons (m : @Mesh F) (n_views : Z)
    (views : list (@vec F * F)) :
  find_best_front_views PCA_fit m n_views = Ok views ->
  exists v rest, views = v :: rest.
Proof.
  intros H.
  destruct (find_best_front_views_Ok _ _ _ H) as (fit & _ & ->).
  destruct (sort_desc_scored_views_cons m fit) as (v & rest & ->).
  destruct (select_views_first n_views v rest) as (p & -> & _).
  cbn [map]. eauto.
Qed.


Lemma render_each_Raise (base : string) (m : @Mesh F) (n_views : Z)
    (views : list (@vec F * F)) (i : nat) (e : exn) :
  render_each visible_bounds base m n_views i views = Raise e ->
  (extent_overflows m = true /\ e = OverflowError)
  \/ (extent_overflows m = false /\ e = ZeroDivisionError).
Proof.
  revert i. induction views as [|[d sc] views IH]; intros i; simpl.
  - discriminate.
  - unfold render_view_to, bind.
    destruct (render_view m (Some d) None _) as [cam|e'] eqn:E.
    + destruct (render_each _ _ _ _ _ views) as [ps|e'] eqn:E'; [discriminate|].
      intros [= <-]. exact (IH _ E').
    + intros [= <-]. exact (render_view_direction_Raise _ _ _ E).
Qed.

(** The first picture already fails when a square overflows. *)
Lemma render_each_overflow (base : string) (m : @Mesh F) (n_views : Z)
    (v : @vec F * F) (views : list (@vec F * F)) (i : nat) :
  extent_overflows m = true ->
  render_each visible_bounds base m n_views i (v :: views)
  = Raise OverflowError.
Proof.
  intros Ho. destruct v as [d sc]. cbn [render_each].
  unfold render_view_to.
  now rewrite (proj1 (proj2 (render_view_raises m (Some d) None _))
                 eq_refl Ho).
Qed.

Lemma render_each_no_width (base : string) (m : @Mesh F) (n_views : Z)
    (views : list (@vec F * F)) (i : nat) :
  extent_overflows m = false ->
  (forall vd p, positive_visible_width (visible_bounds vd p) = false) ->
  is_Ok (render_each visible_bounds base m n_views i views) = true.
Proof.
  intros Ho Hw. revert i. induction views as [|[d sc] views IH]; intros i; simpl.
  - reflexivity.
  - unfold render_view_to. specialize (IH (S i)).
    destruct (render_each _ _ _ _ _ views); [|discriminate].
    assert (Hr : is_Ok (render_view m (Some d) None (visible_bounds (Some d) None))
                 = true).
    { rewrite is_Ok_render_view, Ho, (zoom_without_width m _ (Hw (Some d) None)).
      reflexivity. }
    now destruct (render_view m (Some d) None _).
Qed.

End CallersFacts.



(** X15.  [render_best_views] never fails on its arguments.  When it
    raises, either the fit of the principal axes raised, and that exception is
    passed on; or the square of an extent is out of range and the first
    picture raises [OverflowError]; or a division of the zoom step raised
    [ZeroDivisionError].  With a fit that returns, extents whose squares are in
    range and a renderer that reports no positive visible width it returns. *)
Theorem X15_best_views_failures
    (F : Type) (AF : Arith F) (SL : StrLower)
    (PCA_fit : list (@vec F) -> result (@vec F * @vec F * @vec F))
    (visible_bounds : option (@vec F) -> option string -> option (list F))
    (base : string) (m : Mesh) (n_views : Z) :
  (forall e,
      render_best_views PCA_fit visible_bounds base m n_views = Raise e ->
      PCA_fit (points m) = Raise e
      \/ (extent_overflows m = true /\ e = OverflowError)
      \/ (extent_overflows m = false /\ e = ZeroDivisionError))
  /\ (is_Ok (PCA_fit (points m)) = true ->
      extent_overflows m = true ->
      render_best_views PCA_fit visible_bounds base m n_views
      = Raise OverflowError)
  /\ (is_Ok (PCA_fit (points m)) = true ->
      extent_overflows m = false ->
      (forall vd p, positive_visible_width (visible_bounds vd p) = false) ->
      is_Ok (render_best_views PCA_fit visible_bounds base m n_views) = true).
Proof.
  split; [|split].
  - intros e. unfold render_best_views, find_best_front_views, bind.
    destruct (PCA_fit (points m)) as [fit|e']; [|intros [= <-]; now left].
    intros H. right. exact (render_each_Raise _ _ _ _ _ _ H).
  - intros Hf Ho. unfold render_best_views.
    destruct (find_best_front_views PCA_fit m n_views) as [views|e] eqn:Ev.
    + destruct (find_best_front_views_cons _ _ _ Ev) as (v & rest & ->).
      cbn [bind]. now apply render_each_overflow.
    + unfold find_best_front_views in Ev.
      destruct (PCA_fit (points m)); discriminate.
  - intros Hf Ho Hw. unfold render_best_views, find_best_front_views, bind.
    destruct (PCA_fit (points m)) as [fit|]; [|discriminate].
    now apply render_each_no_width.
Qed.

(** A box that is 2e200 wide: the square of its width is out of range. *)
Lemma X15_best_views_failures_witness :
  is_Ok (render_best_views (SL := Examples.ascii_lower) Examples.axes_fit
           no_bounds "part" Examples.box 3) = true
  /\ render_best_views (SL := Examples.ascii_lower) Examples.axes_fit
       no_bounds "part" Examples.huge_box 3
     = Raise OverflowError.
Proof.
  split.
  - apply (proj2 (proj2 (@X15_best_views_failures PrimFloat.float _
                           Examples.ascii_lower Examples.axes_fit
                           no_bounds "part" Examples.box 3))); reflexivity.
  - apply (proj1 (proj2 (@X15_best_views_failures PrimFloat.float _
                           Examples.ascii_lower Examples.axes_fit
                           no_bounds "part" Examples.huge_box 3)));
      reflexivity.
Defined.

(** *** The default run of [render_3d.py] *)

Local Open Scope R_scope.

Lemma not_above_R (x : R) : negb (Rltb 0.9 x) = true <-> x <= 0.9.
Proof.
  rewrite negb_true_iff. apply Rltb_false.
Qed.

Lemma is_different_R (d0 d1 d2 : R) :
  is_different (d0, d1, d2) = true <-> Rabs d1 <= 0.9 /\ Rabs d2 <= 0.9.
Proof.
  unfold is_different, standard_directions, ivec, dot.
  cbn [forallb snd]. rewrite dec_R. to_R.
  replace (9 / 10) with 0.9 by lra.
  replace (d0 * 0 + d1 * -1 + d2 * 0) with (- d1) by ring.
  replace (d0 * 0 + d1 * 0 + d2 * 1) with d2 by ring.
  replace (d0 * 0 + d1 * 1 + d2 * 0) with d1 by ring.
  rewrite Rabs_Ropp, andb_true_r, !andb_true_iff, !not_above_R. tauto.
Qed.

(** X16.  In exact arithmetic the best view counts as different from the
    standard ones exactly when its y and z components are both at most 0.9 in
    absolute value: the test against "back" repeats the test against
    "front". *)
Theorem X16_is_different (d0 d1 d2 : R) :
  is_different (d0, d1, d2) = true <-> Rabs d1 <= 0.9 /\ Rabs d2 <= 0.9.
Proof. apply is_different_R. Qed.

Local Open Scope string_scope.

Section DefaultRun.

Context {F : Type} {AF : Arith F} {SL : StrLower}.
Variable PCA_fit : list (@vec F) -> result (@vec F * @vec F * @vec F).
Variable visible_bounds : option (@vec F) -> option string -> option (list F).

Lemma render_presets_Ok (base : string) (m : @Mesh F) (paths : list string) :
  render_presets visible_bounds base m standard_view_names = Ok paths ->
  paths = [ base ++ "_front.png"; base ++ "_top.png"; base ++ "_back.png" ].
Proof.
  unfold standard_view_names. cbn [render_presets]. unfold render_view_to, bind.
  repeat (destruct (render_view m None _ _); [|discriminate]).
  cbn [output_filename truthy]. now intros [= <-].
Qed.

Lemma default_names_NoDup (base : string) (auto : list string) :
  auto = [] \/ auto = [base ++ "_auto.png"] ->
  NoDup ([ (base ++ "_front.png")%string; (base ++ "_top.png")%string;
           (base ++ "_back.png")%string ]
         ++ auto)%list.
Proof.
  assert (Hne : forall a b, a <> b -> base ++ a <> base ++ b)
    by (intros a b Hab H; apply Hab; exact (append_inv_head _ _ _ H)).
  intros [->| ->]; cbn [app];
    repeat (constructor; [cbn [In]; intros H;
      repeat (destruct H as [H|H]; [revert H; apply Hne; discriminate|]);
      exact H|]);
    constructor.
Qed.

End DefaultRun.

(** X17.  When the default run of [render_3d.py] returns, it has written
    [base_front.png], [base_top.png] and [base_back.png], in this order, and
    after them [base_auto.png] exactly when the best view found is different
    from the standard ones; the names are pairwise different. *)
Theorem X17_default_run_pictures
    (F : Type) (AF : Arith F) (SL : StrLower)
    (PCA_fit : list (@vec F) -> result (@vec F * @vec F * @vec F))
    (visible_bounds : option (@vec F) -> option string -> option (list F))
    (base : string) (m : Mesh) (paths : list string) :
  render_default_views PCA_fit visible_bounds base m = Ok paths ->
  exists d s rest,
    find_best_front_views PCA_fit m 1 = Ok ((d, s) :: rest)
    /\ paths
       = ([ (base ++ "_front.png")%string; (base ++ "_top.png")%string;
           (base ++ "_back.png")%string ]
          ++ (if is_different d then [(base ++ "_auto.png")%string] else []))%list
    /\ NoDup paths.
Proof.
  unfold render_default_views, bind.
  destruct (render_presets visible_bounds base m standard_view_names)
    as [three|] eqn:E3; [|discriminate].
  apply render_presets_Ok in E3. subst three.
  destruct (find_best_front_views PCA_fit m 1) as [views|] eqn:Ev; [|discriminate].
  pose proof (@find_best_front_views_at_least_one F AF PCA_fit m 1 views
                ltac:(lia) Ev) as Hlen.
  destruct views as [|[d s] rest]; [discriminate|].
  intros H. exists d, s, rest. split; [reflexivity|].
  assert (Hp : paths
    = ([ (base ++ "_front.png")%string; (base ++ "_top.png")%string;
           (base ++ "_back.png")%string ]
       ++ (if is_different d then [(base ++ "_auto.png")%string] else []))%list).
  { destruct (is_different d).
    - unfold render_view_to, bind in H.
      destruct (render_view m (Some d) None _); [|discriminate].
      cbn [output_filename] in H. now apply Ok_inj in H.
    - apply Ok_inj in H. subst paths. reflexivity. }
  split; [exact Hp|]. rewrite Hp.
  apply default_names_NoDup. destruct (is_different d); auto.
Qed.

Lemma X17_default_run_pictures_witness :
  exists paths,
    render_default_views (SL := Examples.ascii_lower) Examples.axes_fit
                         no_bounds "part" Examples.box = Ok paths
    /\ NoDup paths.
Proof.
  eexists. split; [vm_compute; reflexivity|].
  match goal with
  | |- NoDup ?p =>
      assert (E : render_default_views (SL := Examples.ascii_lower)
                    Examples.axes_fit no_bounds "part"
                    Examples.box = Ok p) by (vm_compute; reflexivity);
      destruct (@X17_default_run_pictures PrimFloat.float _
                  Examples.ascii_lower Examples.axes_fit
                  no_bounds "part" Examples.box p E) as (d & s & rest & _ & _ & H)
  end.
  exact H.
Defined.

Local Open Scope R_scope.

Lemma is_different_near_axis (d0 d1 d2 : R) :
  0.9 < Rabs d1 \/ 0.9 < Rabs d2 -> is_different (d0, d1, d2) = false.
Proof.
  intros H. destruct (is_different (d0, d1, d2)) eqn:E; [|reflexivity].
  apply is_different_R in E. lra.
Qed.

Lemma top_direction_R : vdiv (ivec 0 0 1 : @vec R) (norm (ivec 0 0 1)) = (0 / 1, 0 / 1, 1 / 1).
Proof. rewrite norm_z_axis. reflexivity. Qed.

Lemma front_direction_R :
  vdiv (ivec 0 (-1) 0 : @vec R) (norm (ivec 0 (-1) 0)) = (0 / 1, -1 / 1, 0 / 1).
Proof.
  assert (H : norm (ivec 0 (-1) 0 : @vec R) = 1).
  { unfold norm, dot, ivec. to_R.
    replace (0 * 0 + -1 * -1 + 0 * 0) with 1 by ring. apply sqrt_1. }
  rewrite H. reflexivity.
Qed.

(** X18.  In exact arithmetic, when "top" or "front" is the best candidate
    ("top" if no candidate scores higher than it; "front" if it scores higher
    than "top" and no candidate scores higher than it), the default run of
    [render_3d.py] leaves the best view out: it does what rendering the three
    standard pictures does, and no more. *)
Theorem X18_priority_best_view_is_skipped
    (SL : StrLower)
    (PCA_fit : list (@vec R) -> result (@vec R * @vec R * @vec R))
    (visible_bounds : option (@vec R) -> option string -> option (list R))
    (base : string) (m : @Mesh R) (fit : @vec R * @vec R * @vec R)
    (top front : ScoredView) (others : list ScoredView) :
  PCA_fit (points m) = Ok fit ->
  scored_views m fit = top :: front :: others ->
  forallb (fun x => negb (lt (score_of top) (score_of x))) (front :: others)
  = true
  \/ (lt (score_of top) (score_of front) = true
      /\ forallb (fun x => negb (lt (score_of front) (score_of x))) others
         = true) ->
  render_default_views PCA_fit visible_bounds base m
  = render_presets visible_bounds base m standard_view_names.
Proof.
  intros Hf Hs Hbest.
  assert (Hdirs : dir_of top = (0 / 1, 0 / 1, 1 / 1)
                  /\ dir_of front = (0 / 1, -1 / 1, 0 / 1)).
  { destruct fit as [[a0 a1] a2].
    unfold scored_views, all_candidates, priority_views, components_ in Hs.
    cbn [map app] in Hs. injection Hs as <- <- _.
    split; [exact top_direction_R | exact front_direction_R]. }
  destruct Hdirs as (Htop & Hfront).
  assert (Hfirst : exists d s rest,
             find_best_front_views PCA_fit m 1 = Ok ((d, s) :: rest)
             /\ is_different d = false).
  { destruct Hbest as [Ha | (Hb & Ha)].
    - destruct (@find_best_front_views_first R _ PCA_fit m 1 fit []
                  (front :: others) top Hf Hs eq_refl Ha) as (rest & E).
      exists (dir_of top), (score_of top), rest. split; [exact E|].
      rewrite Htop. apply is_different_near_axis. right.
      replace (1 / 1) with 1 by lra. rewrite Rabs_R1. lra.
    - assert (Hb' : forallb (fun x => lt (score_of x) (score_of front)) [top]
                    = true) by (cbn [forallb]; now rewrite Hb).
      destruct (@find_best_front_views_first R _ PCA_fit m 1 fit [top]
                  others front Hf Hs Hb' Ha) as (rest & E).
      exists (dir_of front), (score_of front), rest. split; [exact E|].
      rewrite Hfront. apply is_different_near_axis. left.
      replace (-1 / 1) with (- (1)) by lra. rewrite Rabs_Ropp, Rabs_R1. lra. }
  destruct Hfirst as (d & s & rest & E & Hd).
  unfold render_default_views, bind.
  destruct (render_presets visible_bounds base m standard_view_names);
    [|reflexivity].
  now rewrite E, Hd.
Qed.

(** The scores of a mesh of 100 000 faces or more with unit axes. *)
Lemma large_mesh_scores (m : @Mesh R) (fit : @vec R * @vec R * @vec R) :
  (100000 <= n_cells m)%Z ->
  Forall (fun a => norm a = 1) (components_ fit) ->
  Forall (fun v : ScoredView => score_of v <= 4.8) (scored_views m fit).
Proof.
  intros Hn Hu.
  assert (Hnz : Forall nonzero (components_ fit))
    by (eapply Forall_impl; [|exact Hu]; intros a; apply unit_nonzero).
  apply all_candidates_nonzero in Hnz.
  unfold scored_views. rewrite Forall_map.
  eapply Forall_impl; [|exact Hnz].
  intros [[raw name] prio] Hraw. cbn [fst snd] in *.
  unfold score_view, score_of, base_score. cbn [fst snd].
  pose proof (@pca_score_range fit (vdiv raw (norm raw)) Hu
                (@norm_normalized raw Hraw)) as Hp.
  rewrite (visibility_score_large m _ Hn).
  rewrite !dec_R. to_R. destruct prio; lra.
Qed.

Lemma fine_cube_top_score :
  score_of (score_view Examples.fine_cube
              (components_ (ivec 1 0 0, ivec 0 1 0, ivec 0 0 1))
              (ivec 0 0 1, "top"%string, true)) = 4.8.
Proof.
  unfold score_view, score_of, base_score. cbn [fst snd].
  rewrite (visibility_score_large Examples.fine_cube _ ltac:(simpl; lia)).
  change (vdiv (ivec 0 0 1) (norm (ivec 0 0 1)))
    with (vdiv (ivec 0 0 1 : @vec R) (norm (ivec 0 0 1 : @vec R))).
  rewrite norm_z_axis.
  unfold pca_score, components_, vdiv, ivec, dot. cbn [map fold_left].
  rewrite !py_max_Rmax, !dec_R. to_R.
  replace (0 / 1 * 1 + 0 / 1 * 0 + 1 / 1 * 0) with 0 by field.
  replace (0 / 1 * 0 + 0 / 1 * 1 + 1 / 1 * 0) with 0 by field.
  replace (0 / 1 * 0 + 0 / 1 * 0 + 1 / 1 * 1) with 1 by field.
  rewrite Rabs_R0, Rabs_R1.
  unfold Rmax. repeat destruct (Rle_dec _ _); lra.
Qed.

Lemma X18_priority_best_view_is_skipped_witness :
  render_default_views (SL := Examples.ascii_lower) Examples.raxes_fit
                       no_bounds "part" Examples.fine_cube
  = render_presets (SL := Examples.ascii_lower) no_bounds "part"
                   Examples.fine_cube standard_view_names.
Proof.
  eapply (@X18_priority_best_view_is_skipped Examples.ascii_lower
            Examples.raxes_fit no_bounds "part"
            Examples.fine_cube (ivec 1 0 0, ivec 0 1 0, ivec 0 0 1));
    [reflexivity | reflexivity |].
  left. apply forallb_forall. intros x Hx.
  apply negb_true_iff. apply Rltb_false.
  assert (Hu : Forall (fun a : @vec R => norm a = 1)
                 (components_ (ivec 1 0 0, ivec 0 1 0, ivec 0 0 1)))
    by (repeat constructor;
        [exact unit_x_axis | exact unit_y_axis | exact norm_z_axis]).
  pose proof (@large_mesh_scores Examples.fine_cube _ ltac:(simpl; lia) Hu) as H.
  rewrite Forall_forall in H.
  rewrite fine_cube_top_score. apply H. right. exact Hx.
Defined.

(** *** The resolution argument *)

Local Open Scope string_scope.

Lemma split_on_not_nil (sep : ascii) (text : string) : split_on sep text <> [].
Proof.
  induction text as [|c r IH]; simpl; [discriminate|].
  destruct (Ascii.eqb c sep); [discriminate|].
  destruct (split_on sep r); [contradiction | discriminate].
Qed.

Lemma split_on_no_sep (sep : ascii) (text : string) :
  has_char sep text = false -> split_on sep text = [text].
Proof.
  induction text as [|c r IH]; simpl; [reflexivity|].
  intros H. apply orb_false_iff in H. destruct H as [Hc Hr].
  now rewrite Hc, (IH Hr).
Qed.

Lemma split_on_app (sep : ascii) (w h : string) :
  has_char sep w = false ->
  split_on sep (w ++ String sep h) = w :: split_on sep h.
Proof.
  induction w as [|c w IH]; simpl.
  - intros _. now rewrite Ascii.eqb_refl.
  - intros H. apply orb_false_iff in H. destruct H as [Hc Hw].
    now rewrite Hc, (IH Hw).
Qed.

Lemma split_on_one (sep : ascii) (text h : string) :
  split_on sep text = [h] -> text = h /\ has_char sep h = false.
Proof.
  revert h. induction text as [|c r IH]; simpl; intros h.
  - now intros [= <-].
  - destruct (Ascii.eqb c sep) eqn:Ec.
    + intros [= _ H]. now apply split_on_not_nil in H.
    + destruct (split_on sep r) as [|part parts] eqn:E;
        [now apply split_on_not_nil in E|].
      intros [= <- ->]. destruct (IH part eq_refl) as [-> Hp].
      split; [reflexivity|]. simpl. now rewrite Ec, Hp.
Qed.

Lemma split_on_two (sep : ascii) (text w h : string) :
  split_on sep text = [w; h] ->
  text = w ++ String sep h
  /\ has_char sep w = false /\ has_char sep h = false.
Proof.
  revert w. induction text as [|c r IH]; simpl; intros w.
  - discriminate.
  - destruct (Ascii.eqb c sep) eqn:Ec.
    + intros [= <- H]. apply Ascii.eqb_eq in Ec. subst c.
      destruct (@split_on_one sep r h H) as [-> Hh]. now repeat split.
    + destruct (split_on sep r) as [|part parts] eqn:E;
        [now apply split_on_not_nil in E|].
      intros [= <- ->]. destruct (IH part eq_refl) as (-> & Hp & Hh).
      repeat split; [|exact Hh]. simpl. now rewrite Ec, Hp.
Qed.

(** X19.  The resolution text is taken apart at the letter x.  A text
    [w x h] with no further x gives the pair that [int] makes of [w] and [h],
    and 1080 x 1080 if [int] refuses either; every text that is not of this
    form gives 1080 x 1080.  Nothing else is checked: what [int] accepts is
    passed on. *)
Theorem X19_parse_resolution (py_int : string -> option Z) :
  (forall w h,
      has_char "x" w = false -> has_char "x" h = false ->
      parse_resolution py_int (w ++ "x" ++ h)
      = match py_int w, py_int h with
        | Some width, Some height => (width, height)
        | _, _ => (1080, 1080)%Z
        end)
  /\ (forall text,
         parse_resolution py_int text = (1080, 1080)%Z
         \/ exists w h width height,
              text = w ++ "x" ++ h
              /\ has_char "x" w = false /\ has_char "x" h = false
              /\ py_int w = Some width /\ py_int h = Some height
              /\ parse_resolution py_int text = (width, height)).
Proof.
  split.
  - intros w h Hw Hh. unfold parse_resolution.
    change (w ++ "x" ++ h) with (w ++ String "x" h).
    rewrite (@split_on_app "x" w h Hw), (@split_on_no_sep "x" h Hh).
    cbn [map].
    destruct (py_int w), (py_int h); reflexivity.
  - intros text. unfold parse_resolution.
    destruct (split_on "x" text) as [|w [|h [|t l]]] eqn:E; cbn [map];
      try (now left).
    + destruct (py_int w); now left.
    + destruct (py_int w) as [a|] eqn:Ew; [|now left].
      destruct (py_int h) as [b|] eqn:Eh; [|now left].
      right. destruct (@split_on_two "x" text w h E) as (-> & Hw & Hh).
      exists w, h, a, b. repeat split; assumption.
    + destruct (py_int w); [|now left].
      destruct (py_int h); [|now left].
      destruct (py_int t); now left.
Qed.

Lemma X19_parse_resolution_witness :
  parse_resolution Examples.decimal_int ("1920" ++ "x" ++ "1080")
  = (1920, 1080)%Z.
Proof.
  rewrite (proj1 (X19_parse_resolution Examples.decimal_int) "1920" "1080"
             eq_refl eq_refl).
  reflexivity.
Defined.
